(** * Aqua Sentinel

    A shallow embedding of the three computational pieces of the dashboard:
    - the seeded generators ([generateTideDataForDate] of the tide panel and
      [generateBaseWaterLevel] of the detector panel), together with the
      derived alert flag and the loading of the persisted alert configuration;
    - the pan/zoom engine of the city map ([handleWheel], [handleMouseMove]
      and friends);
    - the [fetch] listener of the service worker.

    JavaScript numbers are modelled as exact rationals extended with [NaN].
    Every number the generators compute is an integer far below 2^53 or a
    decimal with one fractional digit obtained through [toFixed(1)], so the
    rational model agrees with the doubles on them; infinities and the
    negative zero are not modelled. *)

From Stdlib Require Import ZArith QArith Qabs Qround Qminmax Lia Lqa.
From Stdlib Require Import String Ascii DecimalString List.
From stdpp Require Import gmap strings.
Import ListNotations.

(** ** JavaScript values and built-ins used by the sources *)

Module JS.

Inductive number : Type :=
  | NaN
  | Num (q : Q).

Arguments Num q%_Q.

(** Numeric equality of the model: [Q] fractions are not normalised. *)
Definition num_eq (a b : number) : Prop :=
  match a, b with
  | NaN, NaN => True
  | Num x, Num y => x == y
  | _, _ => False
  end.

Definition lift2 (f : Q -> Q -> Q) (a b : number) : number :=
  match a, b with
  | Num x, Num y => Num (f x y)
  | _, _ => NaN
  end.

Definition add : number -> number -> number := lift2 Qplus.
Definition sub : number -> number -> number := lift2 Qminus.
Definition mul : number -> number -> number := lift2 Qmult.

(** [a / b]; a zero divisor gives a non-finite result, collapsed to [NaN]. *)
Definition div (a b : number) : number :=
  match a, b with
  | Num x, Num y => if Qeq_bool y 0 then NaN else Num (x / y)%Q
  | _, _ => NaN
  end.

(** Truncation toward zero. *)
Definition Qtrunc (q : Q) : Z :=
  if Qle_bool 0 q then Qfloor q else Qceiling q.

(** [a % b]: the remainder takes the sign of the dividend. *)
Definition rem (a b : number) : number :=
  match a, b with
  | Num x, Num y =>
      if Qeq_bool y 0 then NaN
      else Num (x - y * inject_Z (Qtrunc (x / y)))%Q
  | _, _ => NaN
  end.

(** Truthiness of a number: [NaN] and [0] are falsy. *)
Definition truthy (a : number) : bool :=
  match a with
  | NaN => false
  | Num q => negb (Qeq_bool q 0)
  end.

(** [a || b] on numbers. *)
Definition or (a b : number) : number := if truthy a then a else b.

(** [a >= b]: a comparison with [NaN] is false. *)
Definition ge (a b : number) : bool :=
  match a, b with
  | Num x, Num y => Qle_bool y x
  | _, _ => false
  end.

Definition Math_max (a b : number) : number := lift2 Qmax a b.

Definition of_Z (z : Z) : number := Num (inject_Z z).
Definition of_nat (n : nat) : number := of_Z (Z.of_nat n).

Declare Scope js_scope.
Delimit Scope js_scope with js.
Bind Scope js_scope with number.
Infix "+" := add : js_scope.
Infix "-" := sub : js_scope.
Infix "*" := mul : js_scope.
Infix "/" := div : js_scope.
Infix "rem" := rem (at level 40, no associativity) : js_scope.
Infix "||" := or : js_scope.
Infix ">=" := ge : js_scope.

(** [s.charCodeAt(i)]: the code unit at index [i], [NaN] out of range.
    Strings are sequences of 8-bit code units here; the sources only apply
    it to the ASCII city names. *)
Definition charCode (c : ascii) : Z := Z.of_nat (nat_of_ascii c).

Definition charCodeAt (s : string) (i : nat) : number :=
  match String.get i s with
  | Some c => of_Z (charCode c)
  | None => NaN
  end.

(** [arr[i]]: [None] stands for [undefined]. *)
Definition index {A : Type} (arr : list A) (i : number) : option A :=
  match i with
  | NaN => None
  | Num q =>
      if Qeq_bool q (inject_Z (Qfloor q)) && (0 <=? Qfloor q)%Z
      then nth_error arr (Z.to_nat (Qfloor q))
      else None
  end.

(** *** Dates, seen through their local-time getters *)

Inductive Date : Type :=
  | InvalidDate
  | DateOf (year monthIndex day : Z).

Definition getDate (d : Date) : number :=
  match d with InvalidDate => NaN | DateOf _ _ dd => of_Z dd end.
Definition getMonth (d : Date) : number :=
  match d with InvalidDate => NaN | DateOf _ m _ => of_Z m end.
Definition getFullYear (d : Date) : number :=
  match d with InvalidDate => NaN | DateOf y _ _ => of_Z y end.

(** A valid date has a month index in 0..11 and a day in 1..31 (the length
    of the month is not needed by any property below). *)
Definition valid_date (d : Date) : bool :=
  match d with
  | InvalidDate => false
  | DateOf _ m dd => (0 <=? m)%Z && (m <=? 11)%Z && (1 <=? dd)%Z && (dd <=? 31)%Z
  end.

(** *** Completions: a call returns normally or throws *)

Inductive exn : Type := RangeError | TypeError | SyntaxError.

Inductive completion (A : Type) : Type :=
  | Normal (a : A)
  | Throw (e : exn).

Arguments Normal {A} a.
Arguments Throw {A} e.

Definition bind {A B : Type} (c : completion A) (k : A -> completion B)
  : completion B :=
  match c with
  | Normal a => k a
  | Throw e => Throw e
  end.

Notation "'let*' x ':=' c 'in' k" := (bind c (fun x => k))
  (at level 10, x name, c at level 100, k at level 200).

(** [Array.from({ length: n }, (_, i) => f i)]: the callback runs for
    i = 0, 1, ..., n-1 in this order. *)
Fixpoint Array_from_aux {A : Type} (f : nat -> completion A) (i n : nat)
  : completion (list A) :=
  match n with
  | O => Normal []
  | S n' =>
      let* x := f i in
      let* xs := Array_from_aux f (S i) n' in
      Normal (x :: xs)
  end.

Definition Array_from {A : Type} (n : nat) (f : nat -> completion A)
  : completion (list A) := Array_from_aux f 0 n.

(** *** Number formatting *)

(** The text produced by [toFixed]: ["NaN"], or the decimal numeral with
    [digits] fractional digits denoting [n / 10^digits].  The numeral is
    kept structured rather than as characters. *)
Inductive numeral : Type :=
  | NaN_numeral
  | Decimal (n : Z) (digits : nat).

(** Nearest integer, ties away from zero. *)
Definition Qround_half_away (q : Q) : Z :=
  if Qle_bool 0 q then Qfloor (q + (1 # 2))%Q
  else (- Qfloor (- q + (1 # 2))%Q)%Z.

Definition pow10 (digits : nat) : Q := inject_Z (10 ^ Z.of_nat digits).

(** The numeral nearest to [x] with [digits] fractional digits. *)
Definition fixed_numeral (x : number) (digits : nat) : numeral :=
  match x with
  | NaN => NaN_numeral
  | Num q => Decimal (Qround_half_away (q * pow10 digits)%Q) digits
  end.

(** [x.toFixed(digits)]; throws a [RangeError] above 100 digits. *)
Definition toFixed (x : number) (digits : nat) : completion numeral :=
  if (100 <? digits)%nat then Throw RangeError
  else Normal (fixed_numeral x digits).

Definition parseFloat (s : numeral) : number :=
  match s with
  | NaN_numeral => NaN
  | Decimal n digits => Num (inject_Z n / pow10 digits)%Q
  end.

(** Digits of the fractional part [r] (0 <= r < 1), at most [fuel] of them. *)
Fixpoint fraction_digits (fuel : nat) (r : Q) : string :=
  match fuel with
  | O => ""
  | S fuel' =>
      let d := Qfloor (r * 10)%Q in
      let r' := (r * 10 - inject_Z d)%Q in
      String (ascii_of_nat (48 + Z.to_nat d))
             (if Qeq_bool r' 0 then "" else fraction_digits fuel' r')
  end.

(** [String(x)].  Integers print as their decimal numeral (lemma
    [String_is_int] below), and the generators only print integers and
    [NaN]; for other values the model prints the expansion up to 17
    fractional digits. *)
Definition String_ (x : number) : string :=
  match x with
  | NaN => "NaN"
  | Num q =>
      if Qeq_bool q (inject_Z (Qfloor q))
      then NilZero.string_of_int (Z.to_int (Qfloor q))
      else
        let z := Qtrunc q in
        ((if Qle_bool 0 q then "" else "-")
           +:+ NilZero.string_of_int (Z.to_int (Z.abs z))
           +:+ "." +:+ fraction_digits 17 (Qabs q - inject_Z (Z.abs z))%Q)
  end.

(** [fill n pad rest]: [n] characters cycling through [pad]. *)
Fixpoint fill (n : nat) (pad rest : string) : string :=
  match n with
  | O => ""
  | S n' =>
      match rest with
      | String c rest' => String c (fill n' pad rest')
      | EmptyString =>
          match pad with
          | String c pad' => String c (fill n' pad pad')
          | EmptyString => ""
          end
      end
  end.

(** [s.padStart(targetLength, padString)]. *)
Definition padStart (s : string) (targetLength : nat) (padString : string)
  : string :=
  if (targetLength <=? String.length s)%nat then s
  else fill (targetLength - String.length s) padString padString +:+ s.

(** [x] is the integer [z]. *)
Definition is_int (x : number) (z : Z) : Prop :=
  match x with
  | Num q => q == inject_Z z
  | NaN => False
  end.

End JS.

(** ** The tide panel: seeded generator, alert flag, persisted alerts *)

Module Tides.
Import JS.
Local Open Scope js_scope.

(** [TideData['status']] *)
Inductive Status : Type := Rising | Falling | High | Low.

(** [TideData].  [status] is an array read, which yields [undefined]
    ([None]) when the index is not a valid one. *)
Record TideData : Type := mkTideData {
  city : string;
  status : option Status;
  height : number;
  nextHigh : string;
  nextLow : string;
  monthlyAvgHigh : number;
  monthlyAvgLow : number;
  past24h : list number
}.

Record TideAlert : Type := mkTideAlert {
  enabled : bool;
  level : number
}.

(** [TideAlertConfig]: city name to alert. *)
Abbreviation TideAlertConfig := (gmap string TideAlert).

Definition CITIES : list string :=
  ["Jakarta"; "Surabaya"; "Medan"; "Makassar"; "Denpasar"; "Semarang"]%string.

Definition statusOptions : list Status := [Rising; Falling; High; Low].

(** The [seed] constant of [generateTideDataForDate]. *)
Definition tideSeed (city : string) (date : Date) : number :=
  getDate date + getMonth date * Num 31 + charCodeAt city 0
  + (charCodeAt city 1 || Num 0).

Section Generator.

(** [Math.sin] and [Math.PI] are taken as given; [Math_random i] is the
    value the i-th call of [Math.random()] returns during one run of the
    generator. *)
Variable Math_sin : number -> number.
Variable Math_PI : number.

Definition generateTideDataForDate
    (Math_random : nat -> number) (city : string) (date : Date)
  : completion TideData :=
  let seed := tideSeed city date in
  let status := index statusOptions (seed rem Num 4) in
  let* heightText :=
    toFixed (Num 0.8 + ((seed * Num 17) rem Num 18) / Num 10) 1 in
  let height := parseFloat heightText in
  let nextHighHour := (seed * Num 7) rem Num 12 + Num 12 in
  let nextHighMin := (seed * Num 13) rem Num 60 in
  let nextHigh :=
    (padStart (String_ nextHighHour) 2 "0" +:+ ":"
     +:+ padStart (String_ nextHighMin) 2 "0")%string in
  let nextLowHour := (seed * Num 3) rem Num 10 + Num 1 in
  let nextLowMin := (seed * Num 19) rem Num 60 in
  let nextLow :=
    (padStart (String_ nextLowHour) 2 "0" +:+ ":"
     +:+ padStart (String_ nextLowMin) 2 "0")%string in
  let* avgHighText :=
    toFixed (Num 2.0 + ((seed * Num 5) rem Num 8) / Num 10) 1 in
  let monthlyAvgHigh := parseFloat avgHighText in
  let* avgLowText :=
    toFixed (Num 0.4 + ((seed * Num 3) rem Num 5) / Num 10) 1 in
  let monthlyAvgLow := parseFloat avgLowText in
  let* past24h :=
    Array_from 24 (fun i =>
      let base := (monthlyAvgLow + monthlyAvgHigh) / Num 2 in
      let amplitude := (monthlyAvgHigh - monthlyAvgLow) / Num 2 in
      let sineWave :=
        Math_sin (((of_nat i + (seed rem Num 24)) / Num 24) * Num 2 * Math_PI
                  - Math_PI / Num 2) in
      let noise := (Math_random i - Num 0.5) * Num 0.2 in
      let value := base + sineWave * amplitude + noise in
      let* valueText := toFixed (Math_max (Num 0.1) value) 1 in
      Normal (parseFloat valueText)) in
  Normal (mkTideData city status height nextHigh nextLow
                     monthlyAvgHigh monthlyAvgLow past24h).

End Generator.

(** Shorthands for the statements below: [parseFloat(x.toFixed(1))], which
    cannot throw, the [HH:MM] template of the two times, the code of the
    second character of a city whose first character was split off, and the
    record the generator builds from a [NaN] seed. *)
Definition roundTo1 (x : number) : number := parseFloat (fixed_numeral x 1).

Definition timeText (hour minute : number) : string :=
  (padStart (String_ hour) 2 "0" +:+ ":"
   +:+ padStart (String_ minute) 2 "0")%string.

Definition secondCode (rest : string) : Z :=
  match rest with String c1 _ => charCode c1 | EmptyString => 0%Z end.

Definition NaN_record (city : string) : TideData :=
  mkTideData city None NaN "NaN:NaN" "NaN:NaN" NaN NaN (repeat NaN 24).

(** The flag computed for each card in the render of [Tides]:
    [alertConfig?.enabled && data.height >= alertConfig.level].
    [None] is [undefined], the value of the expression when the city has no
    configuration. *)
Definition isAlertTriggered (alerts : TideAlertConfig) (data : TideData)
  : option bool :=
  let alertConfig := alerts !! city data in
  match alertConfig with
  | None => None
  | Some cfg => if enabled cfg then Some (height data >= level cfg) else Some false
  end.

(** *** Loading the persisted alerts on mount *)

Record TidesState : Type := mkTidesState {
  alerts : TideAlertConfig;
  console : list (string * exn)
}.

Definition setAlerts (a : TideAlertConfig) (st : TidesState) : TidesState :=
  mkTidesState a (console st).

Definition console_error (msg : string) (error : exn) (st : TidesState)
  : TidesState :=
  mkTidesState (alerts st) (console st ++ [(msg, error)]).

(** A string is truthy when it is not empty. *)
Definition truthy_string (s : string) : bool :=
  match s with EmptyString => false | String _ _ => true end.

Definition parse_error_message : string :=
  "Failed to parse tide alerts from localStorage".

Section LoadAlerts.

(** [JSON.parse], its result read at the type [TideAlertConfig] as the
    source does; it throws on a text it rejects. *)
Variable JSON_parse : string -> completion TideAlertConfig.

(** The body of the [try] block. *)
Definition loadAlerts_try (localStorage : gmap string string) (st : TidesState)
  : completion TidesState :=
  let storedAlerts := localStorage !! "tideAlerts"%string in
  match storedAlerts with
  | Some text =>
      if truthy_string text
      then let* parsed := JSON_parse text in Normal (setAlerts parsed st)
      else Normal st
  | None => Normal st
  end.

(** The first effect of [Tides]: [try { ... } catch (error) { console.error ... }].
    The [try] block changes no state before the call that may throw, so the
    handler runs in the state the effect started from. *)
Definition loadAlertsEffect (localStorage : gmap string string) (st : TidesState)
  : completion TidesState :=
  match loadAlerts_try localStorage st with
  | Normal st' => Normal st'
  | Throw error =>
      Normal (console_error parse_error_message error st)
  end.

End LoadAlerts.

(** The state of [Tides] before its effects run: [useState({})]. *)
Definition initialState : TidesState := mkTidesState ∅ [].

End Tides.

(** ** The detector panel: base water level *)

Module Detector.
Import JS.
Local Open Scope js_scope.

(** The [seed] constant of [generateBaseWaterLevel]. *)
Definition waterLevelSeed (city : string) (date : Date) : number :=
  getDate date + (getMonth date * Num 31) + getFullYear date
  + charCodeAt city 0 + (charCodeAt city 1 || Num 0).

Definition generateBaseWaterLevel (city : string) (date : Date) : number :=
  let seed := waterLevelSeed city date in
  let baseLevel := Num 10 + (seed rem Num 81) in
  baseLevel.

End Detector.

(** ** The city map: pan and zoom

    Pointer coordinates, rectangle sizes and the transform are finite
    numbers, and the scale stays within 1..5, so no [NaN] arises; they are
    modelled as rationals.

    [IndonesiaMap] is a function component.  A handler is a closure of the
    render that created it: it reads the [transform] and [isPanning] of
    that render, while [setTransform] and [setIsPanning] act on the state
    as it is queued, which only the next render shows.  More than one event
    can be handled between two renders.  [startPointRef] and [svgRef] are
    refs, read and written at once, and every handler reads the rectangle
    of the svg element anew. *)

Module IndonesiaMap.
Local Open Scope Q_scope.

(** The [transform] state: [{ scale, x, y }]. *)
Record Transform : Type := mkTransform {
  scale : Q;
  x : Q;
  y : Q
}.

Record Point : Type := mkPoint { px : Q; py : Q }.

(** What [getBoundingClientRect()] returns for the svg element. *)
Record DOMRect : Type := mkDOMRect {
  left : Q;
  top : Q;
  width : Q;
  height : Q
}.

Record WheelEvent : Type := mkWheelEvent {
  deltaY : Q;
  wheelClientX : Q;
  wheelClientY : Q
}.

Record MouseEvent : Type := mkMouseEvent {
  clientX : Q;
  clientY : Q
}.

(** What a render hands to the handlers it creates: its [transform] and its
    [isPanning]. *)
Record Render : Type := mkRender {
  renderedTransform : Transform;
  renderedPanning : bool
}.

(** The state behind the component: [transform] and [isPanning] with every
    queued update applied, and [startPointRef.current]. *)
Record MapState : Type := mkMapState {
  transform : Transform;
  isPanning : bool;
  startPoint : Point
}.

Definition MIN_SCALE : Q := 1.
Definition MAX_SCALE : Q := 5.

Definition initialTransform : Transform := mkTransform 1 0 0.

Definition initialState : MapState :=
  mkMapState initialTransform false (mkPoint 0 0).

(** [Math.max(min, Math.min(max, value))] *)
Definition clamp (value min max : Q) : Q := Qmax min (Qmin max value).

(** [deltaY < 0] *)
Definition Qlt_bool (a b : Q) : bool := negb (Qle_bool b a).

(** The [zoomFactor] and [newScale] constants of [handleWheel]. *)
Definition zoomFactor (e : WheelEvent) : Q :=
  if Qlt_bool (deltaY e) 0 then 1.1 else 1 / 1.1.

Definition newScale (transform : Transform) (e : WheelEvent) : Q :=
  clamp (scale transform * zoomFactor e) MIN_SCALE MAX_SCALE.

(** [handleWheel], on the [transform] of its render; [svgRef] is
    [svgRef.current], [None] when the element is not mounted.  It returns
    the transform it hands to [setTransform], and [transform] itself when
    it returns before that call. *)
Definition handleWheel (svgRef : option DOMRect) (transform : Transform)
    (e : WheelEvent) : Transform :=
  match svgRef with
  | None => transform
  | Some svgRect =>
      let newScale := newScale transform e in
      if Qeq_bool newScale (scale transform) then transform
      else
        let mouseX := wheelClientX e - left svgRect in
        let mouseY := wheelClientY e - top svgRect in
        let svgPoint :=
          mkPoint ((mouseX - x transform) / scale transform)
                  ((mouseY - y transform) / scale transform) in
        let newX := mouseX - px svgPoint * newScale in
        let newY := mouseY - py svgPoint * newScale in
        let boundXMin := Qmin 0 (width svgRect - 1000 * newScale) in
        let boundYMin := Qmin 0 (height svgRect - 500 * newScale) in
        let clampedX := clamp newX boundXMin 0 in
        let clampedY := clamp newY boundYMin 0 in
        mkTransform newScale clampedX clampedY
  end.

(** What [handleWheel] does to the state: [setTransform({ ... })] replaces
    the queued transform by the one computed from the render, and the two
    early returns queue nothing. *)
Definition onWheel (svgRef : option DOMRect) (r : Render) (st : MapState)
    (e : WheelEvent) : MapState :=
  match svgRef with
  | None => st
  | Some _ =>
      if Qeq_bool (newScale (renderedTransform r) e)
                  (scale (renderedTransform r))
      then st
      else mkMapState (handleWheel svgRef (renderedTransform r) e)
                      (isPanning st) (startPoint st)
  end.

Definition handleResetView (st : MapState) : MapState :=
  mkMapState (mkTransform 1 0 0) (isPanning st) (startPoint st).

(** [handleMouseDown]: the start point is taken from the [transform] of the
    render. *)
Definition handleMouseDown (r : Render) (st : MapState) (e : MouseEvent)
  : MapState :=
  mkMapState (transform st) true
             (mkPoint (clientX e - x (renderedTransform r))
                      (clientY e - y (renderedTransform r))).

(** [handleMouseMove].  The guard and the bounds read [isPanning] and
    [transform.scale] of the render; the update
    [prev => ({ ...prev, x, y })] is applied to the queued transform and
    keeps its scale, whatever it is. *)
Definition handleMouseMove (svgRef : option DOMRect) (r : Render)
    (st : MapState) (e : MouseEvent) : MapState :=
  match renderedPanning r, svgRef with
  | true, Some svgRect =>
      let newX := clientX e - px (startPoint st) in
      let newY := clientY e - py (startPoint st) in
      let boundXMin :=
        Qmin 0 (width svgRect - 1000 * scale (renderedTransform r)) in
      let boundYMin :=
        Qmin 0 (height svgRect - 500 * scale (renderedTransform r)) in
      let clampedX := clamp newX boundXMin 0 in
      let clampedY := clamp newY boundYMin 0 in
      let prev := transform st in
      mkMapState (mkTransform (scale prev) clampedX clampedY)
                 (isPanning st) (startPoint st)
  | _, _ => st
  end.

Definition handleMouseUpOrLeave (st : MapState) : MapState :=
  mkMapState (transform st) false (startPoint st).

(** The component between two events: the render whose handlers are
    attached, and the state. *)
Record Component : Type := mkComponent {
  rendered : Render;
  state : MapState
}.

(** Rendering reads the state. *)
Definition render (st : MapState) : Render :=
  mkRender (transform st) (isPanning st).

(** The component after its first render. *)
Definition mount : Component := mkComponent (render initialState) initialState.

(** What happens to the component: the events the svg element and the reset
    button listen to, each with what [svgRef.current] and
    [getBoundingClientRect()] give when it is handled, and the renders. *)
Inductive Event : Type :=
  | Wheel (svgRef : option DOMRect) (e : WheelEvent)
  | MouseDown (e : MouseEvent)
  | MouseMove (svgRef : option DOMRect) (e : MouseEvent)
  | MouseUp
  | MouseLeave
  | ResetClick
  | Rerender.

Definition step (c : Component) (ev : Event) : Component :=
  match ev with
  | Wheel svgRef e =>
      mkComponent (rendered c) (onWheel svgRef (rendered c) (state c) e)
  | MouseDown e =>
      mkComponent (rendered c) (handleMouseDown (rendered c) (state c) e)
  | MouseMove svgRef e =>
      mkComponent (rendered c)
                  (handleMouseMove svgRef (rendered c) (state c) e)
  | MouseUp | MouseLeave =>
      mkComponent (rendered c) (handleMouseUpOrLeave (state c))
  | ResetClick => mkComponent (rendered c) (handleResetView (state c))
  | Rerender => mkComponent (render (state c)) (state c)
  end.

Definition run (c : Component) (evs : list Event) : Component :=
  fold_left step evs c.

(** A run in which every event is rendered before the next one. *)
Definition rendered_each (evs : list Event) : list Event :=
  flat_map (fun ev => [ev; Rerender]) evs.

(** The event was handled while the svg element had this rectangle. *)
Definition on_rect (svgRect : DOMRect) (ev : Event) : Prop :=
  match ev with
  | Wheel svgRef _ | MouseMove svgRef _ => svgRef = Some svgRect
  | _ => True
  end.

(** The bounds of the specification for one axis. *)
Definition within_bounds (viewportSize contentSize scale translate : Q) : Prop :=
  Qmin 0 (viewportSize - contentSize * scale) <= translate /\ translate <= 0.

Definition view_invariant (svgRect : DOMRect) (t : Transform) : Prop :=
  1 <= scale t /\ scale t <= 5
  /\ within_bounds (width svgRect) 1000 (scale t) (x t)
  /\ within_bounds (height svgRect) 500 (scale t) (y t).

End IndonesiaMap.

(** ** The service worker: the [fetch] listener

    A request is a method and a URL.  A cache holds responses to GET
    requests, keyed by URL: [caches.match] answers [undefined] to a request
    of another method, and [cache.put] rejects such a request with a
    [TypeError] and stores nothing.  The other refusals of [cache.put] (a
    URL that is not http or https, a [Vary: *] header) are not modelled.
    The listener is run to completion, including the [cache.put] it starts
    without awaiting it; what other listeners do to the caches while
    [fetch] is in flight is a parameter. *)

Module ServiceWorker.
Import JS.

Definition CACHE_NAME : string := "aqua-sentinel-cache-v1".

Inductive ResponseType : Type :=
  | Basic | Cors | Default | Error | Opaque | OpaqueRedirect.

Record Response : Type := mkResponse {
  status : Z;
  type : ResponseType;
  body : string
}.

Record Request : Type := mkRequest {
  method : string;
  url : string
}.

(** The request [fetch(url)] and [cache.add(url)] make of a URL. *)
Definition GET (url : string) : Request := mkRequest "GET" url.

Definition is_GET (request : Request) : bool :=
  String.eqb (method request) "GET".

Abbreviation Cache := (gmap string Response).

(** [caches]: the named caches, in creation order. *)
Abbreviation CacheStorage := (list (string * gmap string Response)).

(** The first response stored under a URL, looking through the caches in
    creation order. *)
Fixpoint match_url (caches : CacheStorage) (url : string)
  : option Response :=
  match caches with
  | [] => None
  | (_, cache) :: rest =>
      match cache !! url with
      | Some r => Some r
      | None => match_url rest url
      end
  end.

(** [caches.match(request)]; [None] is [undefined].  Only a GET request can
    match. *)
Definition caches_match (caches : CacheStorage) (request : Request)
  : option Response :=
  if is_GET request then match_url caches (url request) else None.

(** The cache of a given name, if it was created. *)
Fixpoint cache_named (caches : CacheStorage) (name : string) : option Cache :=
  match caches with
  | [] => None
  | (n, cache) :: rest =>
      if String.eqb n name then Some cache else cache_named rest name
  end.

(** [caches.open(name)]: creates an empty cache when there is none. *)
Definition caches_open (caches : CacheStorage) (name : string) : CacheStorage :=
  match cache_named caches name with
  | Some _ => caches
  | None => caches ++ [(name, ∅)]
  end.

(** The response is stored under the URL in the cache of this name, which
    is created when there is none. *)
Fixpoint cache_store (caches : CacheStorage) (name : string)
    (url : string) (response : Response) : CacheStorage :=
  match caches with
  | [] => [(name, {[ url := response ]})]
  | (n, cache) :: rest =>
      if String.eqb n name then (n, <[ url := response ]> cache) :: rest
      else (n, cache) :: cache_store rest name url response
  end.

(** [caches.open(name).then(cache => { cache.put(request, response); })]:
    the cache is opened, and [put] stores the response of a GET request;
    for another method it rejects, which nothing handles. *)
Definition caches_open_put (caches : CacheStorage) (name : string)
    (request : Request) (response : Response) : CacheStorage :=
  if is_GET request then cache_store caches name (url request) response
  else caches_open caches name.

(** How [fetch(request)] settles: it resolves with a response (the listener
    also guards against a falsy one, [None]) or rejects. *)
Inductive FetchOutcome : Type :=
  | Resolves (networkResponse : option Response)
  | Rejects (error : exn).

(** What the worker can observe and change: the caches, the requests sent
    to the network, and the console. *)
Record World : Type := mkWorld {
  caches : CacheStorage;
  fetched : list Request;
  console : list (string * exn)
}.

Definition is_opaque (t : ResponseType) : bool :=
  match t with Opaque => true | _ => false end.

Section Listener.

(** The network, as seen by this worker. *)
Variable network : Request -> FetchOutcome.

(** What the other listeners of the worker have done to the caches by the
    time [fetch(request)] settles; the identity when nothing else ran. *)
Variable meanwhile : CacheStorage -> CacheStorage.

(** The promise handed to [event.respondWith]: the response it resolves
    with ([None]: [undefined]) and the world afterwards. *)
Definition onFetch (request : Request) (w : World) : option Response * World :=
  match caches_match (caches w) request with
  | Some cachedResponse => (Some cachedResponse, w)
  | None =>
      let w1 :=
        mkWorld (meanwhile (caches w)) (fetched w ++ [request]) (console w) in
      match network request with
      | Resolves None => (None, w1)
      | Resolves (Some networkResponse) =>
          if negb (status networkResponse =? 200)%Z
             && negb (is_opaque (type networkResponse))
          then (Some networkResponse, w1)
          else
            let responseToCache := networkResponse in
            (Some networkResponse,
             mkWorld (caches_open_put (caches w1) CACHE_NAME request
                                      responseToCache)
                     (fetched w1) (console w1))
      | Rejects error =>
          let w2 :=
            mkWorld (caches w1) (fetched w1)
                    (console w1 ++
                     [("Fetch failed; trying to serve from cache if available."%string,
                       error)]) in
          (caches_match (caches w2) request, w2)
      end
  end.

End Listener.

(** The responses the listener hands to [cache.put]: status 200, or an
    opaque one. *)
Definition cacheable (r : Response) : Prop :=
  status r = 200%Z \/ type r = Opaque.

End ServiceWorker.

(** ** Sample inputs *)

Module Samples.
Import JS.

(** A stand-in for [Math.sin] that is flat, and a decimal for [Math.PI]. *)
Definition flat_sin (x : number) : number :=
  match x with NaN => NaN | Num _ => Num 0 end.

Definition PI_approx : number := Num 3.141592653589793.

Definition mid_random (i : nat) : number := Num 0.5.

Definition march15 : Date := DateOf 2024 2 15.

(** A stand-in for [JSON.parse] that knows the empty object only. *)
Definition parse_empty_object (text : string)
  : completion (gmap string Tides.TideAlert) :=
  if String.eqb text "{}" then Normal ∅ else Throw SyntaxError.

Definition jakartaAlert : gmap string Tides.TideAlert :=
  {[ "Jakarta"%string := Tides.mkTideAlert true (Num 1.0) ]}.

Definition jakartaMuted : gmap string Tides.TideAlert :=
  {[ "Jakarta"%string := Tides.mkTideAlert false (Num 1.0) ]}.

(** The text [JSON.stringify] gives for [jakartaAlert]:
    an object with the key Jakarta, whose value has enabled true and
    level 1. *)
Definition quoted (s : string) : string :=
  String (ascii_of_nat 34) (s +:+ String (ascii_of_nat 34) EmptyString).

Definition jakartaAlertText : string :=
  "{" +:+ quoted "Jakarta" +:+ ":{" +:+ quoted "enabled" +:+ ":true,"
      +:+ quoted "level" +:+ ":1}}".

(** Stand-ins for [JSON.stringify] and [JSON.parse] that know the empty
    configuration and [jakartaAlert]. *)
Definition stringify_known (alerts : gmap string Tides.TideAlert) : string :=
  match alerts !! "Jakarta"%string with
  | Some _ => jakartaAlertText
  | None => "{}"
  end.

Definition parse_known (text : string)
  : completion (gmap string Tides.TideAlert) :=
  if String.eqb text "{}" then Normal ∅
  else if String.eqb text jakartaAlertText then Normal jakartaAlert
  else Throw SyntaxError.

Definition jakartaTide : Tides.TideData :=
  Tides.mkTideData "Jakarta" (Some Tides.Rising) (Num 1.2) "20:44" "05:32"
                   (Num 2.0) (Num 0.8) [].

Definition narrowRect : IndonesiaMap.DOMRect :=
  IndonesiaMap.mkDOMRect 0 0 600 300.

Definition zoomInAtOrigin : IndonesiaMap.WheelEvent :=
  IndonesiaMap.mkWheelEvent (-100) 0 0.

Definition zoomInAtCentre : IndonesiaMap.WheelEvent :=
  IndonesiaMap.mkWheelEvent (-100) 300 150.

Definition zoomOutAtCentre : IndonesiaMap.WheelEvent :=
  IndonesiaMap.mkWheelEvent 100 300 150.

(** In a 600 by 300 viewport: a zoom in, rendered; a press near the bottom
    right corner, rendered; then a zoom out and, before the next render, a
    move towards the top left corner. *)
Definition zoomOutThenDrag : list IndonesiaMap.Event :=
  [ IndonesiaMap.Wheel (Some narrowRect) zoomInAtOrigin;
    IndonesiaMap.Rerender;
    IndonesiaMap.MouseDown (IndonesiaMap.mkMouseEvent 590 290);
    IndonesiaMap.Rerender;
    IndonesiaMap.Wheel (Some narrowRect) zoomOutAtCentre;
    IndonesiaMap.MouseMove (Some narrowRect) (IndonesiaMap.mkMouseEvent 40 60)
  ].

(** The same gesture in a 1050 by 525 viewport, which the content fits at
    scale 1. *)
Definition roomyRect : IndonesiaMap.DOMRect :=
  IndonesiaMap.mkDOMRect 0 0 1050 525.

Definition zoomOutThenDragRoomy : list IndonesiaMap.Event :=
  [ IndonesiaMap.Wheel (Some roomyRect) zoomInAtOrigin;
    IndonesiaMap.Rerender;
    IndonesiaMap.MouseDown (IndonesiaMap.mkMouseEvent 590 290);
    IndonesiaMap.Rerender;
    IndonesiaMap.Wheel (Some roomyRect) zoomOutAtCentre;
    IndonesiaMap.MouseMove (Some roomyRect) (IndonesiaMap.mkMouseEvent 40 60)
  ].

Definition indexPage : ServiceWorker.Response :=
  ServiceWorker.mkResponse 200 ServiceWorker.Basic "<html>".

Definition stylesheet : ServiceWorker.Response :=
  ServiceWorker.mkResponse 0 ServiceWorker.Opaque "".

Definition notFound : ServiceWorker.Response :=
  ServiceWorker.mkResponse 404 ServiceWorker.Basic "".

Definition appModule : ServiceWorker.Response :=
  ServiceWorker.mkResponse 200 ServiceWorker.Basic "export default App;".

(** The request the news panel sends to the completion service, and a
    successful reply to it. *)
Definition completionRequest : ServiceWorker.Request :=
  ServiceWorker.mkRequest "POST"
    "https://generativelanguage.googleapis.com/v1beta/models/gemini-2.5-flash:generateContent".

Definition completionReply : ServiceWorker.Response :=
  ServiceWorker.mkResponse 200 ServiceWorker.Cors "{}".

Definition sampleNetwork (request : ServiceWorker.Request)
  : ServiceWorker.FetchOutcome :=
  let url := ServiceWorker.url request in
  if String.eqb url "https://cdn.tailwindcss.com"
  then ServiceWorker.Resolves (Some stylesheet)
  else if String.eqb url "/missing"
  then ServiceWorker.Resolves (Some notFound)
  else if String.eqb url (ServiceWorker.url completionRequest)
  then ServiceWorker.Resolves (Some completionReply)
  else ServiceWorker.Rejects TypeError.

(** Nothing else touches the caches while a request is in flight. *)
Definition undisturbed (caches : ServiceWorker.CacheStorage)
  : ServiceWorker.CacheStorage := caches.

(** While a request is in flight, another listener stores [/App.tsx]. *)
Definition appStoredMeanwhile (caches : ServiceWorker.CacheStorage)
  : ServiceWorker.CacheStorage :=
  ServiceWorker.cache_store caches ServiceWorker.CACHE_NAME "/App.tsx"
                            appModule.

Definition installedWorld : ServiceWorker.World :=
  ServiceWorker.mkWorld
    [(ServiceWorker.CACHE_NAME, {[ "/index.html"%string := indexPage ]})] [] [].

End Samples.

(** ** Further built-ins *)

Module Builtins.
Import JS.

Definition Math_min (a b : number) : number := lift2 Qmin a b.

Definition Math_abs (a : number) : number :=
  match a with
  | NaN => NaN
  | Num q => Num (Qabs q)
  end.

(** [a > b]: a comparison with [NaN] is false. *)
Definition gt (a b : number) : bool :=
  match a, b with
  | Num x, Num y => negb (Qle_bool x y)
  | _, _ => false
  end.

Infix ">" := gt : js_scope.

End Builtins.

(** ** The detector panel: the gauge refreshed every two seconds *)

Module DetectorPanel.
Import JS Builtins.
Local Open Scope js_scope.

(** The updater passed to [setWaterLevel] by the interval callback;
    [random] is the value [Math.random()] returns in it. *)
Definition tick (baseLevel random prevLevel : number) : number :=
  let change := (random - Num 0.5) * Num 4 in
  let newLevel := prevLevel + change in
  let newLevel :=
    if Math_abs (newLevel - baseLevel) > Num 15
    then (if newLevel > baseLevel then newLevel - Num 0.5
          else newLevel + Num 0.5)
    else newLevel in
  let clampedLevel := Math_max (Num 0) (Math_min (Num 100) newLevel) in
  clampedLevel.

(** The level on display once the effect of [Detector] has set the base
    level of the city and the interval has fired once per element of
    [randoms]. *)
Definition waterLevelAfter (city : string) (date : Date)
    (randoms : list number) : number :=
  let baseLevel := Detector.generateBaseWaterLevel city date in
  fold_left (fun prevLevel random => tick baseLevel random prevLevel)
            randoms baseLevel.

End DetectorPanel.

(** ** The tide panel: alert handlers, persistence and the chart *)

Module TidesPanel.
Import JS Builtins Tides.
Local Open Scope js_scope.

(** [handleAlertChange]: [setAlerts(prev => ({ ...prev, [city]: newAlert }))]. *)
Definition handleAlertChange (city : string) (newAlert : TideAlert)
    (st : TidesState) : TidesState :=
  setAlerts (<[ city := newAlert ]> (alerts st)) st.

(** [alertConfig?.enabled ?? false] and [alertConfig?.level ?? 2.0] of
    [TideCard]. *)
Definition isAlertEnabled (alertConfig : option TideAlert) : bool :=
  match alertConfig with
  | Some cfg => enabled cfg
  | None => false
  end.

Definition alertLevel (alertConfig : option TideAlert) : number :=
  match alertConfig with
  | Some cfg => level cfg
  | None => Num 2.0
  end.

(** [handleEnabledChange]: the alert handed to [onAlertChange];
    [checked] is [e.target.checked]. *)
Definition handleEnabledChange (alertConfig : option TideAlert)
    (checked : bool) : TideAlert :=
  mkTideAlert checked (alertLevel alertConfig).

(** [handleLevelChange]; [parsed] is [parseFloat(e.target.value)]. *)
Definition handleLevelChange (alertConfig : option TideAlert)
    (parsed : number) : TideAlert :=
  let newLevel := parsed || Num 0 in
  mkTideAlert (isAlertEnabled alertConfig) newLevel.

(** The card of [city] wired as in the render of [Tides]:
    [alertConfig={alerts[data.city]}] and
    [onAlertChange={newAlert => handleAlertChange(data.city, newAlert)}]. *)
Definition cardEnabledChange (city : string) (checked : bool)
    (st : TidesState) : TidesState :=
  handleAlertChange city (handleEnabledChange (alerts st !! city) checked) st.

Definition cardLevelChange (city : string) (parsed : number)
    (st : TidesState) : TidesState :=
  handleAlertChange city (handleLevelChange (alerts st !! city) parsed) st.

Section Persist.

Variable JSON_stringify : gmap string TideAlert -> string.

(** The second effect of [Tides]:
    [localStorage.setItem('tideAlerts', JSON.stringify(alerts))]. *)
Definition persistAlertsEffect (st : TidesState)
    (localStorage : gmap string string) : gmap string string :=
  <[ "tideAlerts"%string := JSON_stringify (alerts st) ]> localStorage.

End Persist.

(** The value the callback of [past24h] computes for index [i], given the
    seed and the two monthly averages. *)
Definition historySample (Math_sin : number -> number) (Math_PI : number)
    (Math_random : nat -> number) (seed monthlyAvgLow monthlyAvgHigh : number)
    (i : nat) : number :=
  let base := (monthlyAvgLow + monthlyAvgHigh) / Num 2 in
  let amplitude := (monthlyAvgHigh - monthlyAvgLow) / Num 2 in
  let sineWave :=
    Math_sin (((of_nat i + (seed rem Num 24)) / Num 24) * Num 2 * Math_PI
              - Math_PI / Num 2) in
  let noise := (Math_random i - Num 0.5) * Num 0.2 in
  let value := base + sineWave * amplitude + noise in
  roundTo1 (Math_max (Num 0.1) value).

(** Two decimal digits, as [String(n).padStart(2, '0')] prints 0..99. *)
Definition digit (d : Z) : ascii := ascii_of_nat (48 + Z.to_nat d).

Definition twoDigits (n : Z) : string :=
  String (digit (n / 10)) (String (digit (n mod 10)) "").

End TidesPanel.

(** *** [TideChart]: the coordinates of the path *)

Module TideChart.
Import JS Builtins.
Local Open Scope js_scope.

Definition width : number := Num 300.
Definition height : number := Num 100.
Definition padding : number := Num 10.
Definition chartWidth : number := width - padding * Num 2.
Definition chartHeight : number := height - padding * Num 2.

(** [getX]; [len] is [data.length]. *)
Definition getX (len : nat) (index : nat) : number :=
  padding + (of_nat index / (of_nat len - Num 1)) * chartWidth.

Definition getY (minVal valRange value : number) : number :=
  height - padding - ((value - minVal) / valRange) * chartHeight.

(** The pairs [(getX(i), getY(val))] that [pathData] prints with
    [toFixed(2)]; [None] is the [null] returned for an empty [data]. *)
Definition points (data : list number) : option (list (number * number)) :=
  match data with
  | [] => None
  | d0 :: rest =>
      let maxVal := fold_left Math_max rest d0 in
      let minVal := fold_left Math_min rest d0 in
      let valRange :=
        if (maxVal - minVal) > Num 0 then maxVal - minVal else Num 1 in
      Some (imap (fun i val => (getX (length data) i, getY minVal valRange val))
                 data)
  end.

End TideChart.

(** ** The news panel *)

Module News.

Record NewsArticle : Type := mkNewsArticle {
  id : Z;
  title : string;
  summary : string;
  fullText : string;
  date : string;
  imageUrl : option string;
  source : string;
  city : string
}.

(** [[...new Set(items)]]: the distinct items, in order of first
    occurrence. *)
Definition Set_from (items : list string) : list string :=
  fold_left (fun acc item => if bool_decide (item ∈ acc) then acc
                             else acc ++ [item])
            items [].

(** The [cities] memo. *)
Definition cities (articles : list NewsArticle) : list string :=
  if (length articles =? 0)%nat then ["All Cities"%string]
  else "All Cities"%string :: Set_from (map city articles).

Definition filteredNews (selectedCity : string) (articles : list NewsArticle)
  : list NewsArticle :=
  List.filter
    (fun article =>
       let cityMatch :=
         String.eqb selectedCity "All Cities"
         || String.eqb (city article) selectedCity in
       cityMatch)
    articles.

(** [handleToggleExpand]: the updater passed to [setExpandedArticleIds]. *)
Definition handleToggleExpand (articleId : Z) (prevIds : gset Z) : gset Z :=
  let newIds := prevIds in
  if bool_decide (articleId ∈ newIds) then newIds ∖ {[ articleId ]}
  else newIds ∪ {[ articleId ]}.

(** *** Cleaning the reply of the completion service *)

Definition LF : ascii := ascii_of_nat 10.

(** [text.replace(/```json\n?|\n?```/g, '')].  The scan goes left to right;
    at each position the first alternative is tried before the second, each
    with its optional line feed first; [skip] counts the characters of a
    match that are still to be dropped. *)
Fixpoint strip_fences (skip : nat) (text : string) : string :=
  match text with
  | EmptyString => EmptyString
  | String c rest =>
      match skip with
      | S skip' => strip_fences skip' rest
      | O =>
          if String.prefix ("```json" +:+ String LF "") text
          then strip_fences 7 rest
          else if String.prefix "```json" text then strip_fences 6 rest
          else if String.prefix (String LF "```") text then strip_fences 3 rest
          else if String.prefix "```" text then strip_fences 2 rest
          else String c (strip_fences 0 rest)
      end
  end.

(** White space and line terminators among the 8-bit code units. *)
Definition is_space (c : ascii) : bool :=
  let n := nat_of_ascii c in
  ((9 <=? n) && (n <=? 13) || (n =? 32) || (n =? 160))%nat.

Fixpoint trimStart (s : string) : string :=
  match s with
  | EmptyString => EmptyString
  | String c rest => if is_space c then trimStart rest else s
  end.

Fixpoint trimEnd (s : string) : string :=
  match s with
  | EmptyString => EmptyString
  | String c rest =>
      match trimEnd rest with
      | EmptyString => if is_space c then EmptyString else String c EmptyString
      | rest' => String c rest'
      end
  end.

(** [s.trim()] *)
Definition trim (s : string) : string := trimEnd (trimStart s).

(** [cleanedText] of [fetchNews]. *)
Definition cleanedText (text : string) : string :=
  trim (strip_fences 0 text).

(** A reply wrapped in a json fence. *)
Definition fenced (body : string) : string :=
  ("```json" +:+ String LF "" +:+ body +:+ String LF "```")%string.

Definition backtick : ascii := ascii_of_nat 96.

Definition starts_with_backtick (s : string) : bool :=
  match s with
  | String c _ => Ascii.eqb c backtick
  | EmptyString => false
  end.

Fixpoint no_backtick (s : string) : bool :=
  match s with
  | EmptyString => true
  | String c rest => negb (Ascii.eqb c backtick) && no_backtick rest
  end.

End News.

(** ** The service worker: install and activate *)

Module Lifecycle.
Import JS ServiceWorker.

Definition URLS_TO_CACHE : list string :=
  [ "/"; "/index.html"; "https://cdn.tailwindcss.com"; "/index.tsx";
    "/App.tsx"; "/types.ts"; "/components/Detector.tsx";
    "/components/News.tsx"; "/components/Settings.tsx";
    "/components/Tides.tsx"; "/components/BottomNav.tsx";
    "/components/IndonesiaMap.tsx"; "/components/icons/HomeIcon.tsx";
    "/components/icons/NewsIcon.tsx"; "/components/icons/SettingsIcon.tsx";
    "/components/icons/TideIcon.tsx"; "/components/icons/UserIcon.tsx";
    "/components/icons/SunIcon.tsx"; "/components/icons/MoonIcon.tsx"
  ]%string.

Inductive LogEntry : Type :=
  | Log (msg : string)
  | LogName (msg name : string)
  | Warn (msg : string) (err : exn).

(** The caches and the console of the worker. *)
Record Worker : Type := mkWorker {
  storage : CacheStorage;
  log : list LogEntry
}.

(** [caches.delete(name)] *)
Definition caches_delete (name : string) (caches : CacheStorage)
  : CacheStorage :=
  List.filter (fun entry => negb (String.eqb (fst entry) name)) caches.

Section Install.

(** How [cache.add(url)] settles: with the response it fetched and stored,
    or with the error it rejects with (a failed fetch, or a response that
    is not ok). *)
Variable cache_add_outcome : string -> completion Response.

(** [cache.add(urlToCache).catch(err => console.warn(...))]; the request
    [cache.add] makes of the URL is a GET. *)
Definition cache_add (urlToCache : string) (w : Worker) : Worker :=
  match cache_add_outcome urlToCache with
  | Normal response =>
      mkWorker (caches_open_put (storage w) CACHE_NAME (GET urlToCache)
                                response)
               (log w)
  | Throw err =>
      mkWorker (storage w)
               (log w ++ [Warn ("Failed to cache " +:+ urlToCache +:+ ":") err])
  end.

(** The [install] listener, run to completion; the additions are taken in
    the order of the list. *)
Definition onInstall (w : Worker) : Worker :=
  let opened :=
    mkWorker (caches_open (storage w) CACHE_NAME)
             (log w ++ [Log "Opened cache for Aqua Sentinel"]) in
  fold_left (fun w urlToCache => cache_add urlToCache w) URLS_TO_CACHE opened.

End Install.

Definition cacheWhitelist : list string := [CACHE_NAME].

(** The callback of [cacheNames.map] in the [activate] listener. *)
Definition activate_step (w : Worker) (cacheName : string) : Worker :=
  if negb (existsb (String.eqb cacheName) cacheWhitelist)
  then mkWorker (caches_delete cacheName (storage w))
                (log w ++ [LogName "Deleting old cache:" cacheName])
  else w.

(** The [activate] listener: [caches.keys()] is read once, then every name
    that is not in the whitelist is deleted. *)
Definition onActivate (w : Worker) : Worker :=
  let cacheNames := map fst (storage w) in
  fold_left activate_step cacheNames w.

(** The world the [fetch] listener sees for a worker. *)
Definition world_of (w : Worker) : World := mkWorld (storage w) [] [].

End Lifecycle.

(** ** The root shell: theme *)

Module App.

(** [theme], whether [document.documentElement] carries the class [dark],
    and the local storage. *)
Record AppState : Type := mkAppState {
  theme : string;
  darkClass : bool;
  localStorage : gmap string string
}.

(** The effect that reads the stored theme; [prefersDark] is
    [window.matchMedia('(prefers-color-scheme: dark)').matches]. *)
Definition loadThemeEffect (prefersDark : bool) (st : AppState) : AppState :=
  let storedTheme := localStorage st !! "theme"%string in
  let preferredTheme := (if prefersDark then "dark" else "light")%string in
  let initialTheme :=
    match storedTheme with
    | Some stored =>
        if Tides.truthy_string stored then stored else preferredTheme
    | None => preferredTheme
    end in
  mkAppState initialTheme (darkClass st) (localStorage st).

(** The effect that follows [theme]. *)
Definition applyThemeEffect (st : AppState) : AppState :=
  mkAppState (theme st)
             (if String.eqb (theme st) "dark" then true else false)
             (<[ "theme"%string := theme st ]> (localStorage st)).

Definition handleThemeChange (st : AppState) : AppState :=
  mkAppState (if String.eqb (theme st) "light" then "dark" else "light")%string
             (darkClass st) (localStorage st).

End App.

(** ** More sample inputs *)

Module MoreSamples.

Definition floodJakarta : News.NewsArticle :=
  News.mkNewsArticle 1 "Flood gates opened" "Water recedes." "Full text."
                     "2024-03-10" None "Kompas" "Jakarta".

Definition floodMedan : News.NewsArticle :=
  News.mkNewsArticle 2 "River watch" "Levels rise." "Full text."
                     "2024-03-11"
                     (Some "https://picsum.photos/seed/medan/600/400"%string)
                     "Jakarta Post" "Medan".

Definition someArticles : list News.NewsArticle :=
  [floodJakarta; floodMedan; floodJakarta].

End MoreSamples.

(** * Properties *)

(** ** Integer-valued numbers *)

Section NumberFacts.
Import JS.
Local Open Scope Q_scope.

Lemma is_int_of_Z z : is_int (of_Z z) z.
Proof. simpl. reflexivity. Qed.

Lemma is_int_num_eq a z : is_int a z -> num_eq a (of_Z z).
Proof. destruct a; simpl; tauto. Qed.

Lemma is_int_add a b x y :
  is_int a x -> is_int b y -> is_int (a + b)%js (x + y).
Proof.
  destruct a as [|qa], b as [|qb]; simpl; try tauto.
  intros Ha Hb. rewrite Ha, Hb, inject_Z_plus. reflexivity.
Qed.

Lemma is_int_mul a b x y :
  is_int a x -> is_int b y -> is_int (a * b)%js (x * y).
Proof.
  destruct a as [|qa], b as [|qb]; simpl; try tauto.
  intros Ha Hb. rewrite Ha, Hb, inject_Z_mult. reflexivity.
Qed.

Lemma Qeq_bool_inject_Z_0 z : z <> 0%Z -> Qeq_bool (inject_Z z) 0 = false.
Proof.
  intros Hz. destruct (Qeq_bool (inject_Z z) 0) eqn:E; [|reflexivity].
  apply Qeq_bool_eq in E. unfold Qeq in E. simpl in E. lia.
Qed.

Lemma Qeq_bool_comp_l a b c : a == b -> Qeq_bool a c = Qeq_bool b c.
Proof.
  intros H. destruct (Qeq_bool b c) eqn:E.
  - apply Qeq_bool_iff. apply Qeq_bool_iff in E. rewrite H. exact E.
  - destruct (Qeq_bool a c) eqn:E'; [|reflexivity].
    apply Qeq_bool_iff in E'. rewrite H in E'.
    apply Qeq_bool_iff in E'. congruence.
Qed.

Lemma Qle_bool_comp a b c d : a == b -> c == d -> Qle_bool a c = Qle_bool b d.
Proof.
  intros H1 H2. destruct (Qle_bool b d) eqn:E.
  - apply Qle_bool_iff. apply Qle_bool_iff in E. rewrite H1, H2. exact E.
  - destruct (Qle_bool a c) eqn:E'; [|reflexivity].
    apply Qle_bool_iff in E'. rewrite H1, H2 in E'.
    apply Qle_bool_iff in E'. congruence.
Qed.

Lemma Qtrunc_comp a b : a == b -> Qtrunc a = Qtrunc b.
Proof.
  intros H. unfold Qtrunc.
  rewrite (Qle_bool_comp 0 0 a b) by (reflexivity || exact H).
  rewrite (Qfloor_comp _ _ H), (Qceiling_comp _ _ H). reflexivity.
Qed.

Lemma Qtrunc_div_nonneg x y :
  (0 <= x)%Z -> (0 < y)%Z -> Qtrunc (inject_Z x / inject_Z y) = (x / y)%Z.
Proof.
  intros Hx Hy. unfold Qtrunc.
  assert (H : Qle_bool 0 (inject_Z x / inject_Z y) = true).
  { apply Qle_bool_iff. apply Qle_shift_div_l.
    - unfold Qlt; simpl; lia.
    - rewrite Qmult_0_l. unfold Qle; simpl; lia. }
  rewrite H. symmetry. apply Zdiv_Qdiv.
Qed.

(** On a non-negative dividend and a positive divisor, [%] is [mod]. *)
Lemma is_int_rem a b x y :
  is_int a x -> is_int b y -> (0 <= x)%Z -> (0 < y)%Z ->
  is_int (a rem b)%js (x mod y).
Proof.
  destruct a as [|qa], b as [|qb]; simpl; try tauto.
  intros Ha Hb Hx Hy.
  rewrite (Qeq_bool_comp_l _ _ 0 Hb), Qeq_bool_inject_Z_0 by lia.
  simpl.
  assert (Hq : qa / qb == inject_Z x / inject_Z y)
    by (rewrite Ha, Hb; reflexivity).
  rewrite (Qtrunc_comp _ _ Hq), Qtrunc_div_nonneg by assumption.
  rewrite Ha, Hb. rewrite <- inject_Z_mult. unfold Qminus.
  rewrite <- inject_Z_opp, <- inject_Z_plus.
  rewrite Z.mod_eq by lia. reflexivity.
Qed.

Lemma is_int_or0 a x : is_int a x -> is_int (a || Num 0)%js x.
Proof.
  destruct a as [|qa]; simpl; try tauto. intros Ha.
  unfold or; simpl. destruct (Qeq_bool qa 0) eqn:E; simpl; [|exact Ha].
  apply Qeq_bool_eq in E. rewrite E in Ha. exact Ha.
Qed.

Lemma index_is_int {A} (arr : list A) i z :
  is_int i z -> (0 <= z)%Z -> index arr i = nth_error arr (Z.to_nat z).
Proof.
  destruct i as [|q]; simpl; [tauto|]. intros Hq Hz.
  rewrite (Qfloor_comp _ _ Hq), Qfloor_Z.
  assert (E : Qeq_bool q (inject_Z z) = true) by (apply Qeq_bool_iff, Hq).
  rewrite E. assert (E' : (0 <=? z)%Z = true) by lia. rewrite E'. reflexivity.
Qed.

Lemma ge_true_iff (a b : number) :
  ge a b = true <-> exists h l, a = Num h /\ b = Num l /\ l <= h.
Proof.
  destruct a as [|h], b as [|l]; simpl; split; try discriminate;
    try (intros (h' & l' & H1 & H2 & _); discriminate).
  - intros H. exists h, l. repeat split. apply Qle_bool_iff, H.
  - intros (h' & l' & H1 & H2 & H3). inversion H1; inversion H2; subst.
    apply Qle_bool_iff, H3.
Qed.

(** *** Rounding to a fixed number of digits *)

Lemma Qround_half_away_comp a b :
  a == b -> Qround_half_away a = Qround_half_away b.
Proof.
  intros H. unfold Qround_half_away.
  rewrite (Qle_bool_comp 0 0 a b) by (reflexivity || exact H).
  assert (H1 : a + (1 # 2) == b + (1 # 2)) by (rewrite H; reflexivity).
  assert (H2 : - a + (1 # 2) == - b + (1 # 2)) by (rewrite H; reflexivity).
  rewrite (Qfloor_comp _ _ H1), (Qfloor_comp _ _ H2). reflexivity.
Qed.

Lemma Qfloor_plus_half z : Qfloor (inject_Z z + (1 # 2)) = z.
Proof.
  unfold Qfloor, Qplus, inject_Z. cbn [Qnum Qden].
  change (Z.pos (1 * 2)) with 2%Z.
  replace (z * 2 + 1 * 1)%Z with (1 + z * 2)%Z by lia.
  rewrite Z.div_add by lia. reflexivity.
Qed.

Lemma Qround_half_away_Z z : Qround_half_away (inject_Z z) = z.
Proof.
  unfold Qround_half_away. destruct (Qle_bool 0 (inject_Z z)) eqn:E.
  - apply Qfloor_plus_half.
  - rewrite <- inject_Z_opp, Qfloor_plus_half. lia.
Qed.

Lemma pow10_1 : pow10 1 == 10.
Proof. reflexivity. Qed.

Lemma tenths_bounds (n lo hi : Z) :
  (lo <= n <= hi)%Z ->
  inject_Z lo / 10 <= inject_Z n / pow10 1
  /\ inject_Z n / pow10 1 <= inject_Z hi / 10.
Proof.
  intros H. rewrite pow10_1. split; apply Qmult_le_compat_r;
    try (unfold Qle; simpl; lia).
Qed.

Lemma Array_from_aux_normal {A} (f : nat -> completion A) (g : nat -> A) n :
  (forall i, f i = Normal (g i)) ->
  forall i, Array_from_aux f i n = Normal (map g (seq i n)).
Proof.
  intros Hf. induction n as [|n IH]; intros i; simpl.
  - reflexivity.
  - rewrite Hf. simpl. rewrite IH. reflexivity.
Qed.

Lemma Array_from_normal {A} (f : nat -> completion A) (g : nat -> A) n :
  (forall i, f i = Normal (g i)) ->
  Array_from n f = Normal (map g (seq 0 n)).
Proof. intros Hf. apply Array_from_aux_normal, Hf. Qed.

End NumberFacts.

(** ** The seeded generators *)

Section GeneratorFacts.
Import JS Tides.
Local Open Scope Q_scope.

Lemma String_is_int x z :
  is_int x z -> String_ x = NilZero.string_of_int (Z.to_int z).
Proof.
  destruct x as [|q]; unfold is_int; [tauto|]. intros Hq.
  unfold String_. rewrite (Qfloor_comp _ _ Hq), Qfloor_Z.
  assert (E : Qeq_bool q (inject_Z z) = true) by (apply Qeq_bool_iff, Hq).
  rewrite E. reflexivity.
Qed.

Lemma charCode_nonneg c : (0 <= charCode c)%Z.
Proof. unfold charCode. lia. Qed.

Lemma secondCode_nonneg rest : (0 <= secondCode rest)%Z.
Proof. destruct rest; simpl; [lia | apply charCode_nonneg]. Qed.

Lemma is_int_second_or0 c0 rest :
  is_int (charCodeAt (String c0 rest) 1 || Num 0)%js (secondCode rest).
Proof.
  destruct rest as [|c1 rest'].
  - exact (Qeq_refl 0).
  - apply is_int_or0. apply is_int_of_Z.
Qed.

Lemma tideSeed_is_int c0 rest y m d :
  is_int (tideSeed (String c0 rest) (DateOf y m d))
         (d + m * 31 + charCode c0 + secondCode rest).
Proof.
  unfold tideSeed.
  repeat apply is_int_add; try apply is_int_mul;
    solve [ apply is_int_of_Z | apply is_int_second_or0 ].
Qed.

Lemma waterLevelSeed_is_int c0 rest y m d :
  is_int (Detector.waterLevelSeed (String c0 rest) (DateOf y m d))
         (d + m * 31 + y + charCode c0 + secondCode rest).
Proof.
  unfold Detector.waterLevelSeed.
  repeat apply is_int_add; try apply is_int_mul;
    solve [ apply is_int_of_Z | apply is_int_second_or0 ].
Qed.

Lemma tideSeed_empty date : tideSeed "" date = NaN.
Proof. destruct date; reflexivity. Qed.

Lemma waterLevelSeed_empty date : Detector.waterLevelSeed "" date = NaN.
Proof. destruct date; reflexivity. Qed.

Lemma tideSeed_invalid_date city : tideSeed city InvalidDate = NaN.
Proof. reflexivity. Qed.

(** The cities the panels generate data for are not empty. *)
Lemma CITIES_nonempty : Forall (fun city => city <> ""%string) CITIES.
Proof. repeat constructor; discriminate. Qed.

(** The generator returns, and every field but the history is a function of
    the seed alone. *)
Lemma generate_returns sin pi rand city date :
  let seed := tideSeed city date in
  exists hist,
    length hist = 24%nat /\
    generateTideDataForDate sin pi rand city date =
    Normal (mkTideData city
      (index statusOptions (seed rem Num 4))
      (roundTo1 (Num 0.8 + ((seed * Num 17) rem Num 18) / Num 10))
      (timeText ((seed * Num 7) rem Num 12 + Num 12)
                ((seed * Num 13) rem Num 60))
      (timeText ((seed * Num 3) rem Num 10 + Num 1)
                ((seed * Num 19) rem Num 60))
      (roundTo1 (Num 2.0 + ((seed * Num 5) rem Num 8) / Num 10))
      (roundTo1 (Num 0.4 + ((seed * Num 3) rem Num 5) / Num 10))
      hist)%js.
Proof.
  intros seed. unfold generateTideDataForDate, toFixed.
  change (100 <? 1)%nat with false. cbv beta iota delta [bind].
  erewrite Array_from_normal by (intros i; reflexivity).
  eexists. split; [|reflexivity].
  rewrite length_map, length_seq. reflexivity.
Qed.

Lemma generate_NaN_seed sin pi rand city date :
  tideSeed city date = NaN ->
  generateTideDataForDate sin pi rand city date = Normal (NaN_record city).
Proof.
  intros H. unfold generateTideDataForDate. rewrite H. reflexivity.
Qed.

(** A constant with one decimal plus an integer number of tenths rounds to
    itself. *)
Lemma roundTo1_tenths (c : Q) (cz : Z) (a : number) (k : Z) :
  c * 10 == inject_Z cz -> is_int a k ->
  roundTo1 (Num c + a / Num 10)%js = Num (inject_Z (cz + k) / pow10 1).
Proof.
  intros Hc Ha. destruct a as [|qa]; simpl in Ha; [tauto|].
  unfold roundTo1. cbn [div add lift2 fixed_numeral parseFloat].
  change (Qeq_bool 10 0) with false. cbv iota.
  cbn [fixed_numeral parseFloat]. f_equal. f_equal. f_equal.
  rewrite <- Qround_half_away_Z. apply Qround_half_away_comp.
  rewrite pow10_1, inject_Z_plus, <- Hc, <- Ha. field.
Qed.

(** C1. For every location with at least one character and every valid
    date, [generateTideDataForDate] returns a record whose status is one of
    Rising, Falling, High and Low and whose height lies in [0.8, 2.5]. *)
Theorem generate_status_height sin pi rand (city : string) (date : Date) :
  city <> ""%string -> valid_date date = true ->
  exists r,
    generateTideDataForDate sin pi rand city date = Normal r
    /\ In (status r) [Some Rising; Some Falling; Some High; Some Low]
    /\ exists h, height r = Num h /\ 0.8 <= h /\ h <= 2.5.
Proof.
  intros Hcity Hdate.
  destruct city as [|c0 rest]; [congruence|].
  destruct date as [|y m d]; [discriminate|].
  simpl in Hdate.
  pose proof (charCode_nonneg c0) as Hc0.
  pose proof (secondCode_nonneg rest) as Hc1.
  pose proof (tideSeed_is_int c0 rest y m d) as Hseed.
  set (z := (d + m * 31 + charCode c0 + secondCode rest)%Z) in *.
  assert (Hz : (0 <= z)%Z) by lia.
  destruct (generate_returns sin pi rand (String c0 rest) (DateOf y m d))
    as (hist & _ & Hgen).
  cbv zeta in Hgen. eexists. split; [exact Hgen|].
  cbn [status height]. split.
  - erewrite index_is_int;
      [| apply is_int_rem; [exact Hseed | exact (is_int_of_Z 4) | lia | lia]
       | apply Z.mod_pos_bound; lia].
    pose proof (Z.mod_pos_bound z 4 ltac:(lia)) as Hb.
    assert (Hcases : (z mod 4 = 0 \/ z mod 4 = 1
                      \/ z mod 4 = 2 \/ z mod 4 = 3)%Z) by lia.
    destruct Hcases as [E|[E|[E|E]]]; rewrite E; simpl; tauto.
  - erewrite (roundTo1_tenths 0.8 8);
      [| reflexivity
       | apply is_int_rem;
         [apply is_int_mul; [exact Hseed | exact (is_int_of_Z 17)]
         | exact (is_int_of_Z 18) | lia | lia]].
    eexists. split; [reflexivity|].
    pose proof (Z.mod_pos_bound (z * 17) 18 ltac:(lia)) as Hb.
    apply (tenths_bounds _ 8 25). lia.
Qed.

Lemma generate_status_height_witness :
  exists r,
    generateTideDataForDate Samples.flat_sin Samples.PI_approx
      Samples.mid_random "Jakarta" Samples.march15 = Normal r
    /\ In (status r) [Some Rising; Some Falling; Some High; Some Low]
    /\ exists h, height r = Num h /\ 0.8 <= h /\ h <= 2.5.
Proof.
  apply generate_status_height.
  - discriminate.
  - reflexivity.
Defined.

(** C2. Two calls with the same location and date return the same status,
    height, nextHigh, nextLow, monthlyAvgHigh and monthlyAvgLow, whatever
    [Math.random] yields in either call. *)
Theorem generate_deterministic sin pi (rand1 rand2 : nat -> number)
    (city : string) (date : Date) :
  exists r1 r2,
    generateTideDataForDate sin pi rand1 city date = Normal r1
    /\ generateTideDataForDate sin pi rand2 city date = Normal r2
    /\ status r1 = status r2
    /\ height r1 = height r2
    /\ nextHigh r1 = nextHigh r2
    /\ nextLow r1 = nextLow r2
    /\ monthlyAvgHigh r1 = monthlyAvgHigh r2
    /\ monthlyAvgLow r1 = monthlyAvgLow r2.
Proof.
  destruct (generate_returns sin pi rand1 city date) as (h1 & _ & H1).
  destruct (generate_returns sin pi rand2 city date) as (h2 & _ & H2).
  cbv zeta in H1, H2.
  eexists; eexists. split; [exact H1|]. split; [exact H2|].
  cbn [status height nextHigh nextLow monthlyAvgHigh monthlyAvgLow].
  repeat split.
Qed.

(** The history does depend on the noise. *)
Example noise_changes_history :
  exists r1 r2,
    generateTideDataForDate Samples.flat_sin Samples.PI_approx
      (fun _ => Num 0) "Jakarta" Samples.march15 = Normal r1
    /\ generateTideDataForDate Samples.flat_sin Samples.PI_approx
         (fun _ => Num 0.99) "Jakarta" Samples.march15 = Normal r2
    /\ past24h r1 <> past24h r2.
Proof.
  eexists; eexists. split; [vm_compute; reflexivity|].
  split; [vm_compute; reflexivity|]. cbn [past24h]. intros H. inversion H.
Qed.

(** C6. The tide seed is day + month*31 + code of the first character +
    code of the second character (0 when there is none); the water-level
    seed adds the full year. *)
Theorem seed_formula (c0 : ascii) (rest : string) (year monthIndex day : Z) :
  let city := String c0 rest in
  let date := DateOf year monthIndex day in
  let code1 :=
    match rest with String c1 _ => charCode c1 | EmptyString => 0%Z end in
  num_eq (tideSeed city date)
         (of_Z (day + monthIndex * 31 + charCode c0 + code1))
  /\ num_eq (Detector.waterLevelSeed city date)
            (of_Z (day + monthIndex * 31 + year + charCode c0 + code1)).
Proof.
  cbv zeta. split; apply is_int_num_eq.
  - apply tideSeed_is_int.
  - apply waterLevelSeed_is_int.
Qed.

(** C8, as the code has it. The generator never throws; on the empty
    location, and on an invalid date, it signals nothing and returns a
    record whose status is undefined, whose numbers are NaN and whose times
    read NaN:NaN; and the base water level is NaN on the empty location and
    on an invalid date. *)
Theorem generate_never_throws sin pi rand (city : string) (date : Date) :
  (exists r, generateTideDataForDate sin pi rand city date = Normal r)
  /\ generateTideDataForDate sin pi rand "" date = Normal (NaN_record "")
  /\ generateTideDataForDate sin pi rand city InvalidDate
     = Normal (NaN_record city)
  /\ Detector.generateBaseWaterLevel "" date = NaN
  /\ Detector.generateBaseWaterLevel city InvalidDate = NaN.
Proof.
  split; [|split; [|split; [|split]]].
  - destruct (generate_returns sin pi rand city date) as (h & _ & H).
    eexists. exact H.
  - apply generate_NaN_seed, tideSeed_empty.
  - apply generate_NaN_seed, tideSeed_invalid_date.
  - unfold Detector.generateBaseWaterLevel.
    rewrite waterLevelSeed_empty. reflexivity.
  - reflexivity.
Qed.

(** C8 as stated fails: the empty location gets a record, not a signal. *)
Lemma empty_city_returns_record :
  let c := generateTideDataForDate Samples.flat_sin Samples.PI_approx
             Samples.mid_random "" Samples.march15 in
  c = Normal (NaN_record "") /\ ~ (exists e, c = Throw e).
Proof.
  cbv zeta. split; [vm_compute; reflexivity|].
  intros [e He]. vm_compute in He. discriminate He.
Qed.

End GeneratorFacts.

(** ** Alerts *)

Section AlertFacts.
Import JS Tides.
Local Open Scope Q_scope.

(** C7. The triggered flag is true exactly when the city has a
    configuration that is enabled and whose level is at most the height of
    the tide record; it is false whenever the configuration is disabled. *)
Theorem alert_triggered_iff (alerts : gmap string TideAlert) (data : TideData) :
  (isAlertTriggered alerts data = Some true <->
   exists cfg h l,
     alerts !! city data = Some cfg /\ enabled cfg = true
     /\ height data = Num h /\ level cfg = Num l /\ l <= h)
  /\ (forall cfg, alerts !! city data = Some cfg -> enabled cfg = false ->
      isAlertTriggered alerts data = Some false).
Proof.
  unfold isAlertTriggered. split.
  - destruct (alerts !! city data) as [cfg|] eqn:E.
    + destruct (enabled cfg) eqn:En.
      * split.
        -- intros H. injection H as H. apply ge_true_iff in H.
           destruct H as (h & l & Hh & Hl & Hle). exists cfg, h, l. auto.
        -- intros (cfg' & h & l & Hc & _ & Hh & Hl & Hle).
           injection Hc as <-. f_equal. apply ge_true_iff. eauto.
      * split; [discriminate|].
        intros (cfg' & h & l & Hc & En' & _). injection Hc as <-. congruence.
    + split; [discriminate|]. intros (cfg' & h & l & Hc & _). discriminate.
  - intros cfg -> ->. reflexivity.
Qed.

Lemma alert_triggered_iff_witness :
  isAlertTriggered Samples.jakartaAlert Samples.jakartaTide = Some true
  /\ isAlertTriggered Samples.jakartaMuted Samples.jakartaTide = Some false.
Proof.
  split.
  - apply (proj1 (alert_triggered_iff Samples.jakartaAlert Samples.jakartaTide)).
    exists (mkTideAlert true (Num 1.0)), 1.2, 1.0.
    repeat split; try reflexivity. discriminate.
  - apply (proj2 (alert_triggered_iff Samples.jakartaMuted Samples.jakartaTide)
             (mkTideAlert false (Num 1.0))); reflexivity.
Defined.

(** A city without configuration yields [undefined], which is falsy. *)
Lemma alert_absent alerts data :
  alerts !! city data = None -> isAlertTriggered alerts data = None.
Proof. intros H. unfold isAlertTriggered. rewrite H. reflexivity. Qed.

(** C9, as the code has it. A stored text that is not empty and that
    [JSON.parse] rejects is logged and leaves the alerts as they were, and
    the effect completes normally; an empty stored text is skipped before
    any parsing, so nothing is logged for it. *)
Theorem load_unparseable_alerts
    (JSON_parse : string -> completion (gmap string TideAlert))
    (localStorage : gmap string string) (st : TidesState)
    (text : string) (error : exn) :
  localStorage !! "tideAlerts"%string = Some text ->
  JSON_parse text = Throw error ->
  (text <> ""%string ->
   loadAlertsEffect JSON_parse localStorage st =
   Normal (mkTidesState (alerts st)
                        (console st ++ [(parse_error_message, error)])))
  /\ (text = ""%string ->
      loadAlertsEffect JSON_parse localStorage st = Normal st).
Proof.
  intros Hget Hparse. unfold loadAlertsEffect, loadAlerts_try. rewrite Hget.
  split.
  - intros Hne. destruct text as [|c text']; [congruence|].
    cbn [truthy_string]. rewrite Hparse. reflexivity.
  - intros ->. reflexivity.
Qed.

Lemma load_unparseable_alerts_witness :
  loadAlertsEffect Samples.parse_empty_object
    {[ "tideAlerts"%string := "{oops"%string ]} initialState
  = Normal (mkTidesState ∅ [(parse_error_message, SyntaxError)]).
Proof.
  refine (proj1 (load_unparseable_alerts Samples.parse_empty_object
                   {[ "tideAlerts"%string := "{oops"%string ]} initialState
                   "{oops" SyntaxError _ _) _).
  - vm_compute. reflexivity.
  - reflexivity.
  - discriminate.
Defined.

(** C9 as stated fails on the empty text: [JSON.parse] rejects it, yet the
    effect logs nothing. *)
Lemma empty_stored_text_not_logged :
  let localStorage : gmap string string :=
    {[ "tideAlerts"%string := ""%string ]} in
  localStorage !! "tideAlerts"%string = Some ""%string
  /\ Samples.parse_empty_object "" = Throw SyntaxError
  /\ loadAlertsEffect Samples.parse_empty_object localStorage initialState
     = Normal initialState
  /\ console initialState = [].
Proof. cbv zeta. repeat split. Qed.

End AlertFacts.

(** ** Pan and zoom *)

Section MapFacts.
Import IndonesiaMap.
Local Open Scope Q_scope.

Lemma clamp_lower value lo hi : lo <= clamp value lo hi.
Proof. unfold clamp. apply Q.le_max_l. Qed.

Lemma clamp_upper value lo hi : lo <= hi -> clamp value lo hi <= hi.
Proof.
  intros H. unfold clamp. apply Q.max_lub; [exact H | apply Q.le_min_l].
Qed.

Lemma clamp_id value lo hi :
  lo <= value -> value <= hi -> clamp value lo hi == value.
Proof.
  intros H1 H2. unfold clamp. rewrite (Q.min_r _ _ H2). apply Q.max_r, H1.
Qed.

Lemma within_bounds_clamp viewportSize contentSize s value :
  within_bounds viewportSize contentSize s
    (clamp value (Qmin 0 (viewportSize - contentSize * s)) 0).
Proof.
  split; [apply clamp_lower | apply clamp_upper, Q.le_min_l].
Qed.

Lemma newScale_range t e : 1 <= newScale t e /\ newScale t e <= 5.
Proof.
  unfold newScale, MIN_SCALE, MAX_SCALE. split.
  - apply clamp_lower.
  - apply clamp_upper. discriminate.
Qed.

Lemma initial_view_invariant svgRect : view_invariant svgRect initialTransform.
Proof.
  unfold view_invariant, within_bounds, initialTransform. cbn [scale x y].
  repeat split; try discriminate; try apply Q.le_min_l.
Qed.

Lemma handleWheel_invariant svgRect t e :
  view_invariant svgRect t ->
  view_invariant svgRect (handleWheel (Some svgRect) t e).
Proof.
  intros Ht. unfold handleWheel. cbv zeta.
  destruct (Qeq_bool (newScale t e) (scale t)); [exact Ht|].
  unfold view_invariant. cbn [scale x y].
  destruct (newScale_range t e) as [Hlo Hhi].
  repeat split; try assumption; apply within_bounds_clamp.
Qed.

Lemma onWheel_transform svgRef r st e :
  transform (onWheel svgRef r st e)
  = match svgRef with
    | None => transform st
    | Some _ =>
        if Qeq_bool (newScale (renderedTransform r) e)
                    (scale (renderedTransform r))
        then transform st
        else handleWheel svgRef (renderedTransform r) e
    end.
Proof.
  unfold onWheel. destruct svgRef as [svgRect|]; [|reflexivity].
  destruct (Qeq_bool _ _); reflexivity.
Qed.

(** With no update pending, the wheel listener leaves the state with what
    [handleWheel] returns. *)
Lemma onWheel_settled svgRef r st e :
  renderedTransform r = transform st ->
  transform (onWheel svgRef r st e) = handleWheel svgRef (transform st) e.
Proof.
  intros Hr. rewrite onWheel_transform, Hr. unfold handleWheel.
  destruct svgRef as [svgRect|]; [|reflexivity]. cbv zeta.
  destruct (Qeq_bool _ _); reflexivity.
Qed.

(** A wheel event that changes the scale leaves the state with what
    [handleWheel] computes from the render, whatever was queued. *)
Lemma onWheel_changed svgRect r st e :
  ~ newScale (renderedTransform r) e == scale (renderedTransform r) ->
  transform (onWheel (Some svgRect) r st e)
  = handleWheel (Some svgRect) (renderedTransform r) e.
Proof.
  intros Hne. rewrite onWheel_transform.
  destruct (Qeq_bool _ _) eqn:E; [|reflexivity].
  apply Qeq_bool_iff in E. contradiction.
Qed.

Lemma handleMouseMove_settled_invariant svgRect r st e :
  renderedTransform r = transform st ->
  view_invariant svgRect (transform st) ->
  view_invariant svgRect (transform (handleMouseMove (Some svgRect) r st e)).
Proof.
  intros Hr Ht. unfold handleMouseMove. destruct (renderedPanning r); [|exact Ht].
  cbv zeta. cbn [transform]. rewrite Hr. destruct Ht as (Hlo & Hhi & _).
  unfold view_invariant. cbn [scale x y].
  repeat split; try assumption; apply within_bounds_clamp.
Qed.

Lemma step_settled_invariant svgRect c ev :
  on_rect svgRect ev ->
  renderedTransform (rendered c) = transform (state c) ->
  view_invariant svgRect (transform (state c)) ->
  view_invariant svgRect (transform (state (step c ev))).
Proof.
  intros Hev Hr Ht.
  destruct ev; cbn [on_rect] in Hev; try subst svgRef;
    cbn [step state transform handleMouseDown handleMouseUpOrLeave
         handleResetView];
    try exact Ht.
  - rewrite (onWheel_settled _ _ _ _ Hr). apply handleWheel_invariant, Ht.
  - apply handleMouseMove_settled_invariant; assumption.
  - apply initial_view_invariant.
Qed.

(** What does hold: when every event is rendered before the next one is
    handled and the svg element keeps its rectangle, the transform stays
    within the bounds. *)
Lemma rendered_each_invariant svgRect evs : forall c,
  Forall (on_rect svgRect) evs ->
  renderedTransform (rendered c) = transform (state c) ->
  view_invariant svgRect (transform (state c)) ->
  view_invariant svgRect (transform (state (run c (rendered_each evs)))).
Proof.
  induction evs as [|ev evs IH]; intros c Hevs Hr Ht; [exact Ht|].
  apply Forall_cons in Hevs. destruct Hevs as [Hev Hevs].
  cbn [rendered_each flat_map app run fold_left].
  apply (IH (step (step c ev) Rerender) Hevs); [reflexivity|].
  cbn [step state]. apply step_settled_invariant; assumption.
Qed.

(** And whatever the renders and the rectangles: the scale stays within
    1..5 and no translation is positive. *)
Lemma scale_and_sign_invariant evs : forall c,
  (let t := transform (state c) in
   1 <= scale t /\ scale t <= 5 /\ x t <= 0 /\ y t <= 0) ->
  let t := transform (state (run c evs)) in
  1 <= scale t /\ scale t <= 5 /\ x t <= 0 /\ y t <= 0.
Proof.
  cbv zeta.
  induction evs as [|ev evs IH]; intros c Hc; [exact Hc|].
  cbn [run fold_left]. apply IH. destruct Hc as (H1 & H5 & HX & HY).
  destruct ev;
    cbn [step state transform handleMouseDown handleMouseUpOrLeave
         handleResetView scale x y];
    try (repeat split; (assumption || discriminate)).
  - rewrite onWheel_transform. destruct svgRef as [svgRect|];
      [|repeat split; assumption].
    destruct (Qeq_bool _ _) eqn:E; [repeat split; assumption|].
    unfold handleWheel. rewrite E. cbv zeta. cbn [scale x y].
    destruct (newScale_range (renderedTransform (rendered c)) e) as [Hlo Hhi].
    repeat split; try assumption; apply clamp_upper, Q.le_min_l.
  - unfold handleMouseMove.
    destruct (renderedPanning (rendered c)), svgRef as [svgRect|];
      try (repeat split; assumption).
    cbv zeta. cbn [transform scale x y].
    repeat split; try assumption; apply clamp_upper, Q.le_min_l.
Qed.

(** C3 fails on the code. In a 600 by 300 viewport, a zoom out followed by
    a pan move before the next render leaves the transform at scale 1 with
    translations -500 and -230: [handleMouseMove] clamps with the scale 1.1
    of its render and writes into the queued transform of scale 1, whose
    bounds are -400 and -200.  The next render puts it on display. *)
Theorem pan_after_zoom_out_leaves_bounds :
  let c := run mount Samples.zoomOutThenDrag in
  let t := transform (state c) in
  (scale t == 1 /\ x t == -500 /\ y t == -230)
  /\ ~ Qmin 0 (width Samples.narrowRect - 1000 * scale t) <= x t
  /\ ~ Qmin 0 (height Samples.narrowRect - 500 * scale t) <= y t
  /\ ~ view_invariant Samples.narrowRect t
  /\ renderedTransform (rendered (step c Rerender)) = t.
Proof.
  cbv zeta.
  assert (HX : ~ Qmin 0 (width Samples.narrowRect
                         - 1000 * scale (transform (state
                             (run mount Samples.zoomOutThenDrag))))
                 <= x (transform (state (run mount Samples.zoomOutThenDrag)))).
  { vm_compute. intros H. apply H. reflexivity. }
  split; [vm_compute; repeat split; reflexivity|].
  split; [exact HX|]. split; [|split].
  - vm_compute. intros H. apply H. reflexivity.
  - intros (_ & _ & [H _] & _). exact (HX H).
  - reflexivity.
Qed.

Lemma handleWheel_same_scale svgRef t e :
  newScale t e == scale t -> handleWheel svgRef t e = t.
Proof.
  intros H. unfold handleWheel. destruct svgRef as [svgRect|]; [|reflexivity].
  cbv zeta. apply Qeq_bool_iff in H. rewrite H. reflexivity.
Qed.

Lemma newScale_at_max tx ty e :
  deltaY e < 0 -> newScale (mkTransform 5 tx ty) e == 5.
Proof.
  intros H. unfold newScale, zoomFactor, Qlt_bool. cbn [scale].
  assert (E : Qle_bool 0 (deltaY e) = false).
  { destruct (Qle_bool 0 (deltaY e)) eqn:E; [|reflexivity].
    apply Qle_bool_iff in E. exfalso. apply (Qlt_not_le _ _ H E). }
  rewrite E. reflexivity.
Qed.

Lemma newScale_at_min tx ty e :
  0 <= deltaY e -> newScale (mkTransform 1 tx ty) e == 1.
Proof.
  intros H. unfold newScale, zoomFactor, Qlt_bool. cbn [scale].
  apply Qle_bool_iff in H. rewrite H. reflexivity.
Qed.

(** C10. When the clamped new scale of a wheel event equals the current
    scale, as when zooming in at scale 5 or out at scale 1, the handler
    leaves scale, x and y as they were: it returns before [setTransform],
    so the state keeps what it held. *)
Theorem wheel_same_scale_unchanged (svgRef : option DOMRect) (t : Transform)
    (e : WheelEvent) :
  (newScale t e == scale t -> handleWheel svgRef t e = t)
  /\ (scale t = 5 -> deltaY e < 0 -> handleWheel svgRef t e = t)
  /\ (scale t = 1 -> 0 <= deltaY e -> handleWheel svgRef t e = t)
  /\ (forall (panning : bool) (st : MapState),
        newScale t e == scale t ->
        onWheel svgRef (mkRender t panning) st e = st).
Proof.
  split; [apply handleWheel_same_scale|].
  split; [|split].
  - intros Hs Hd. apply handleWheel_same_scale.
    destruct t as [s tx ty]; cbn [scale] in *; subst s.
    apply newScale_at_max, Hd.
  - intros Hs Hd. apply handleWheel_same_scale.
    destruct t as [s tx ty]; cbn [scale] in *; subst s.
    apply newScale_at_min, Hd.
  - intros p st H. unfold onWheel. destruct svgRef; [|reflexivity].
    cbn [renderedTransform]. apply Qeq_bool_iff in H. rewrite H. reflexivity.
Qed.

Lemma wheel_same_scale_unchanged_witness :
  handleWheel (Some Samples.narrowRect) (mkTransform 5 (-40) (-25))
              Samples.zoomInAtCentre
  = mkTransform 5 (-40) (-25).
Proof.
  apply (proj1 (wheel_same_scale_unchanged (Some Samples.narrowRect)
                  (mkTransform 5 (-40) (-25)) Samples.zoomInAtCentre)).
  vm_compute. reflexivity.
Defined.

Lemma handleWheel_changed svgRect t e :
  ~ newScale t e == scale t ->
  let mouseX := wheelClientX e - left svgRect in
  let mouseY := wheelClientY e - top svgRect in
  let s' := newScale t e in
  handleWheel (Some svgRect) t e =
  mkTransform s'
    (clamp (mouseX - (mouseX - x t) / scale t * s')
           (Qmin 0 (width svgRect - 1000 * s')) 0)
    (clamp (mouseY - (mouseY - y t) / scale t * s')
           (Qmin 0 (height svgRect - 500 * s')) 0).
Proof.
  intros Hne. cbv zeta. unfold handleWheel. cbv zeta.
  destruct (Qeq_bool (newScale t e) (scale t)) eqn:E.
  - apply Qeq_bool_iff in E. contradiction.
  - reflexivity.
Qed.

Lemma fixed_point cursor translate s s' :
  ~ s' == 0 ->
  (cursor - (cursor - (cursor - translate) / s * s')) / s'
  == (cursor - translate) / s.
Proof.
  intros Hs'. generalize ((cursor - translate) / s). intros c.
  field. exact Hs'.
Qed.

(** C4, as the code has it. After a wheel event that changes the scale, each
    translation is cursor - contentPoint * newScale clamped into
    [min(0, viewport - content*newScale), 0]; whenever that value already
    lies within these bounds the translation equals it, and the content
    point under the cursor is the same before and after. *)
Theorem wheel_zoom_to_point_clamped (svgRect : DOMRect) (t : Transform)
    (e : WheelEvent) :
  ~ newScale t e == scale t ->
  let t' := handleWheel (Some svgRect) t e in
  let mouseX := wheelClientX e - left svgRect in
  let mouseY := wheelClientY e - top svgRect in
  let contentX := (mouseX - x t) / scale t in
  let contentY := (mouseY - y t) / scale t in
  scale t' = newScale t e
  /\ x t' = clamp (mouseX - contentX * scale t')
                  (Qmin 0 (width svgRect - 1000 * scale t')) 0
  /\ y t' = clamp (mouseY - contentY * scale t')
                  (Qmin 0 (height svgRect - 500 * scale t')) 0
  /\ (Qmin 0 (width svgRect - 1000 * scale t') <= mouseX - contentX * scale t' ->
      mouseX - contentX * scale t' <= 0 ->
      x t' == mouseX - contentX * scale t'
      /\ (mouseX - x t') / scale t' == contentX)
  /\ (Qmin 0 (height svgRect - 500 * scale t') <= mouseY - contentY * scale t' ->
      mouseY - contentY * scale t' <= 0 ->
      y t' == mouseY - contentY * scale t'
      /\ (mouseY - y t') / scale t' == contentY).
Proof.
  intros Hne. cbv zeta. rewrite (handleWheel_changed svgRect t e Hne).
  cbv zeta. cbn [scale x y].
  assert (Hs' : ~ newScale t e == 0).
  { intros H0. destruct (newScale_range t e) as [Hlo _]. rewrite H0 in Hlo.
    exact (Qlt_not_le 0 1 eq_refl Hlo). }
  split; [reflexivity|]. split; [reflexivity|]. split; [reflexivity|].
  split; intros Hlo Hhi; pose proof (clamp_id _ _ _ Hlo Hhi) as Hid;
    (split; [exact Hid | rewrite Hid; apply fixed_point, Hs']).
Qed.

Lemma wheel_zoom_to_point_clamped_witness :
  let svgRect := Samples.narrowRect in
  let t := initialTransform in
  let e := Samples.zoomInAtCentre in
  let t' := handleWheel (Some svgRect) t e in
  let mouseX := wheelClientX e - left svgRect in
  let contentX := (mouseX - x t) / scale t in
  x t' == mouseX - contentX * scale t'
  /\ (mouseX - x t') / scale t' == contentX.
Proof.
  cbv zeta.
  refine (proj1 (proj2 (proj2 (proj2
            (wheel_zoom_to_point_clamped Samples.narrowRect initialTransform
               Samples.zoomInAtCentre _)))) _ _).
  - vm_compute. discriminate.
  - vm_compute. discriminate.
  - vm_compute. discriminate.
Defined.

(** C4 as stated fails: zooming in at the top-left corner and then out at
    the centre of a 600 by 300 viewport moves the point under the cursor,
    because the translation is clamped to 0. *)
Lemma zoom_out_moves_point_under_cursor :
  let t := transform (state (run mount
                               [Wheel (Some Samples.narrowRect)
                                      Samples.zoomInAtOrigin; Rerender])) in
  let t' := handleWheel (Some Samples.narrowRect) t Samples.zoomOutAtCentre in
  let mouseX := wheelClientX Samples.zoomOutAtCentre - left Samples.narrowRect in
  let contentX := (mouseX - x t) / scale t in
  ~ scale t' == scale t
  /\ ~ x t' == mouseX - contentX * scale t'
  /\ ~ (mouseX - x t') / scale t' == contentX.
Proof.
  cbv zeta. vm_compute. repeat split; intros H; discriminate H.
Qed.

End MapFacts.

(** ** The fetch listener *)

Section WorkerFacts.
Import JS ServiceWorker.

Lemma cacheable_guard r :
  negb (status r =? 200)%Z && negb (is_opaque (type r)) = false
  <-> cacheable r.
Proof.
  unfold cacheable. destruct (Z.eqb_spec (status r) 200) as [E|E];
    destruct (type r); simpl; split; intros H;
    try tauto; try discriminate; try (destruct H; congruence).
Qed.

Lemma is_GET_true request : is_GET request = true <-> method request = "GET"%string.
Proof. apply String.eqb_eq. Qed.

Lemma is_GET_false request : is_GET request = false <-> method request <> "GET"%string.
Proof. apply String.eqb_neq. Qed.

Lemma caches_match_GET cs url : caches_match cs (GET url) = match_url cs url.
Proof. reflexivity. Qed.

Lemma caches_open_put_GET cs name url response :
  caches_open_put cs name (GET url) response = cache_store cs name url response.
Proof. reflexivity. Qed.

Lemma cache_named_store cs name url response :
  exists cache,
    cache_named (cache_store cs name url response) name = Some cache
    /\ cache !! url = Some response.
Proof.
  induction cs as [|[n c] rest IH]; simpl.
  - rewrite String.eqb_refl. eexists. split; [reflexivity|].
    apply lookup_singleton_eq.
  - destruct (String.eqb n name) eqn:E; simpl; rewrite E.
    + eexists. split; [reflexivity|]. apply lookup_insert_eq.
    + exact IH.
Qed.

Lemma match_url_open cs name url :
  match_url (caches_open cs name) url = match_url cs url.
Proof.
  unfold caches_open. destruct (cache_named cs name); [reflexivity|].
  induction cs as [|[n c] rest IH]; simpl.
  - rewrite lookup_empty. reflexivity.
  - rewrite IH. reflexivity.
Qed.

Lemma caches_match_open cs name request :
  caches_match (caches_open cs name) request = caches_match cs request.
Proof.
  unfold caches_match. destruct (is_GET request); [|reflexivity].
  apply match_url_open.
Qed.

(** C5, as the code has it. On a cache hit the cached response is returned
    and the network is not asked. On a miss the network is asked and its
    response is returned; it is stored under the URL of the request in the
    cache [CACHE_NAME] exactly when its status is 200 or its type is opaque
    and the request is a GET: for a request of another method [cache.put]
    is called and rejects, so that the cache is opened and nothing is
    stored, and such a request never has a cache match. When the network
    rejects, the failure is logged and the result is what the caches hold
    for the request by then, possibly nothing. *)
Theorem fetch_cache_first (network : Request -> FetchOutcome)
    (meanwhile : CacheStorage -> CacheStorage)
    (request : Request) (w : World) :
  (forall cachedResponse,
     caches_match (caches w) request = Some cachedResponse ->
     onFetch network meanwhile request w = (Some cachedResponse, w))
  /\ (forall networkResponse,
        caches_match (caches w) request = None ->
        network request = Resolves (Some networkResponse) ->
        let (result, w') := onFetch network meanwhile request w in
        result = Some networkResponse
        /\ fetched w' = fetched w ++ [request]
        /\ console w' = console w
        /\ (cacheable networkResponse -> method request = "GET"%string ->
            caches w' = cache_store (meanwhile (caches w)) CACHE_NAME
                                    (url request) networkResponse
            /\ exists cache,
                 cache_named (caches w') CACHE_NAME = Some cache
                 /\ cache !! url request = Some networkResponse)
        /\ (cacheable networkResponse -> method request <> "GET"%string ->
            caches w' = caches_open (meanwhile (caches w)) CACHE_NAME
            /\ forall other,
                 caches_match (caches w') other
                 = caches_match (meanwhile (caches w)) other)
        /\ (~ cacheable networkResponse -> caches w' = meanwhile (caches w)))
  /\ (forall error,
        caches_match (caches w) request = None ->
        network request = Rejects error ->
        onFetch network meanwhile request w
        = (caches_match (meanwhile (caches w)) request,
           mkWorld (meanwhile (caches w)) (fetched w ++ [request])
                   (console w ++
                    [("Fetch failed; trying to serve from cache if available."%string,
                      error)])))
  /\ (method request <> "GET"%string ->
      caches_match (caches w) request = None).
Proof.
  split; [|split; [|split]].
  - intros c Hc. unfold onFetch. rewrite Hc. reflexivity.
  - intros r Hmiss Hnet. unfold onFetch. rewrite Hmiss, Hnet.
    destruct (negb (status r =? 200)%Z && negb (is_opaque (type r))) eqn:G.
    + assert (Hn : ~ cacheable r).
      { intros Hc. apply cacheable_guard in Hc. congruence. }
      cbn [caches fetched console]. repeat split; tauto.
    + apply cacheable_guard in G. cbn [caches fetched console].
      split; [reflexivity|]. split; [reflexivity|]. split; [reflexivity|].
      split; [|split]; [| |tauto].
      * intros _ Hget. apply is_GET_true in Hget.
        unfold caches_open_put. rewrite Hget.
        split; [reflexivity|]. apply cache_named_store.
      * intros _ Hother. apply is_GET_false in Hother.
        unfold caches_open_put. rewrite Hother.
        split; [reflexivity|]. intros other. apply caches_match_open.
  - intros err Hmiss Hnet. unfold onFetch. rewrite Hmiss, Hnet. reflexivity.
  - intros Hother. apply is_GET_false in Hother.
    unfold caches_match. rewrite Hother. reflexivity.
Qed.

Lemma fetch_cache_first_witness :
  onFetch Samples.sampleNetwork Samples.undisturbed (GET "/index.html")
          Samples.installedWorld
  = (Some Samples.indexPage, Samples.installedWorld)
  /\ (let (result, w') :=
        onFetch Samples.sampleNetwork Samples.undisturbed
                (GET "https://cdn.tailwindcss.com") Samples.installedWorld in
      result = Some Samples.stylesheet
      /\ fetched w' = [GET "https://cdn.tailwindcss.com"]
      /\ exists cache,
           cache_named (caches w') CACHE_NAME = Some cache
           /\ cache !! "https://cdn.tailwindcss.com"%string
              = Some Samples.stylesheet)
  /\ (let (result, w') :=
        onFetch Samples.sampleNetwork Samples.undisturbed
                Samples.completionRequest Samples.installedWorld in
      result = Some Samples.completionReply
      /\ caches w' = caches_open (caches Samples.installedWorld) CACHE_NAME)
  /\ onFetch Samples.sampleNetwork Samples.appStoredMeanwhile (GET "/App.tsx")
             Samples.installedWorld
     = (caches_match (Samples.appStoredMeanwhile (caches Samples.installedWorld))
                     (GET "/App.tsx"),
        mkWorld (Samples.appStoredMeanwhile (caches Samples.installedWorld))
                [GET "/App.tsx"]
                [("Fetch failed; trying to serve from cache if available."%string,
                  TypeError)]).
Proof.
  split; [|split; [|split]].
  - apply (proj1 (fetch_cache_first Samples.sampleNetwork Samples.undisturbed
                    (GET "/index.html") Samples.installedWorld)).
    vm_compute. reflexivity.
  - pose proof (proj1 (proj2 (fetch_cache_first Samples.sampleNetwork
                  Samples.undisturbed (GET "https://cdn.tailwindcss.com")
                  Samples.installedWorld))
                  Samples.stylesheet) as H.
    destruct (onFetch Samples.sampleNetwork Samples.undisturbed
                      (GET "https://cdn.tailwindcss.com")
                      Samples.installedWorld) as [result w'].
    destruct H as (Hr & Hf & _ & Hs & _);
      [vm_compute; reflexivity | reflexivity |].
    split; [exact Hr|]. split; [exact Hf|].
    apply Hs; [right|]; reflexivity.
  - pose proof (proj1 (proj2 (fetch_cache_first Samples.sampleNetwork
                  Samples.undisturbed Samples.completionRequest
                  Samples.installedWorld))
                  Samples.completionReply) as H.
    destruct (onFetch Samples.sampleNetwork Samples.undisturbed
                      Samples.completionRequest Samples.installedWorld)
      as [result w'].
    destruct H as (Hr & _ & _ & _ & Hp & _);
      [vm_compute; reflexivity | reflexivity |].
    split; [exact Hr|]. apply Hp; [left; reflexivity | discriminate].
  - apply (proj1 (proj2 (proj2 (fetch_cache_first Samples.sampleNetwork
                    Samples.appStoredMeanwhile (GET "/App.tsx")
                    Samples.installedWorld))) TypeError).
    + vm_compute. reflexivity.
    + reflexivity.
Defined.

(** C5 as stated fails: the reply to the POST of the news panel has status
    200 and is returned, the listener hands it to [cache.put], and no cache
    holds it afterwards; asked again, the listener goes to the network
    again. *)
Lemma post_reply_is_not_stored :
  let request := Samples.completionRequest in
  let (result, w') :=
    onFetch Samples.sampleNetwork Samples.undisturbed request
            Samples.installedWorld in
  result = Some Samples.completionReply
  /\ status Samples.completionReply = 200%Z
  /\ caches w' = caches Samples.installedWorld
  /\ (forall name cache,
        cache_named (caches w') name = Some cache ->
        cache !! url request = None)
  /\ fetched (snd (onFetch Samples.sampleNetwork Samples.undisturbed request w'))
     = [request; request].
Proof.
  cbv zeta. vm_compute onFetch.
  split; [reflexivity|]. split; [reflexivity|]. split; [reflexivity|].
  split; [|reflexivity].
  intros name cache. cbn [caches cache_named].
  destruct (String.eqb _ name); [|discriminate].
  intros H. injection H as <-. vm_compute. reflexivity.
Qed.

(** When the network rejects, the second [caches.match] can find what
    another listener stored in the meantime. *)
Example fallback_finds_later_entry :
  fst (onFetch Samples.sampleNetwork Samples.appStoredMeanwhile
               (GET "/App.tsx") Samples.installedWorld)
  = Some Samples.appModule
  /\ fst (onFetch Samples.sampleNetwork Samples.undisturbed
                  (GET "/App.tsx") Samples.installedWorld)
     = None.
Proof. split; vm_compute; reflexivity. Qed.

End WorkerFacts.

(** * Further properties *)

(** ** The generators, field by field *)

Section GeneratorMore.
Import JS Builtins Tides TidesPanel.
Local Open Scope Q_scope.

Lemma generate_returns_history sin pi rand city date :
  let seed := tideSeed city date in
  let high := roundTo1 (Num 2.0 + ((seed * Num 5) rem Num 8) / Num 10)%js in
  let low := roundTo1 (Num 0.4 + ((seed * Num 3) rem Num 5) / Num 10)%js in
  generateTideDataForDate sin pi rand city date =
  Normal (mkTideData city
    (index statusOptions (seed rem Num 4))
    (roundTo1 (Num 0.8 + ((seed * Num 17) rem Num 18) / Num 10))
    (timeText ((seed * Num 7) rem Num 12 + Num 12)
              ((seed * Num 13) rem Num 60))
    (timeText ((seed * Num 3) rem Num 10 + Num 1)
              ((seed * Num 19) rem Num 60))
    high low
    (map (historySample sin pi rand seed low high) (seq 0 24)))%js.
Proof.
  intros seed high low. unfold generateTideDataForDate, toFixed.
  change (100 <? 1)%nat with false. cbv beta iota delta [bind].
  erewrite Array_from_normal by (intros i; reflexivity).
  reflexivity.
Qed.

(** What a valid input gives: the seed is a non-negative integer. *)
Lemma valid_seed (city : string) (date : Date) :
  city <> ""%string -> valid_date date = true ->
  exists z, (0 <= z)%Z /\ is_int (tideSeed city date) z.
Proof.
  intros Hcity Hdate.
  destruct city as [|c0 rest]; [congruence|].
  destruct date as [|y m d]; [discriminate|].
  simpl in Hdate.
  pose proof (charCode_nonneg c0). pose proof (secondCode_nonneg rest).
  eexists. split; [|apply tideSeed_is_int]. lia.
Qed.

Lemma is_int_scaled_rem seed z k n :
  is_int seed z -> (0 <= z)%Z -> (0 <= k)%Z -> (0 < n)%Z ->
  is_int ((seed * of_Z k) rem of_Z n)%js ((z * k) mod n).
Proof.
  intros Hs Hz Hk Hn. apply is_int_rem.
  - apply is_int_mul; [exact Hs | apply is_int_of_Z].
  - apply is_int_of_Z.
  - lia.
  - exact Hn.
Qed.

(** X1. For a non-empty city and a valid date the monthly average low lies
    in [0.4, 0.8] and the monthly average high in [2.0, 2.7], so the low is
    always below the high. *)
Theorem monthly_averages_ranges sin pi rand (city : string) (date : Date) :
  city <> ""%string -> valid_date date = true ->
  exists r lo hi,
    generateTideDataForDate sin pi rand city date = Normal r
    /\ monthlyAvgLow r = Num lo /\ monthlyAvgHigh r = Num hi
    /\ 0.4 <= lo /\ lo <= 0.8 /\ 2.0 <= hi /\ hi <= 2.7 /\ lo < hi.
Proof.
  intros Hcity Hdate.
  destruct (valid_seed city date Hcity Hdate) as (z & Hz & Hseed).
  pose proof (generate_returns_history sin pi rand city date) as Hgen.
  cbv zeta in Hgen.
  assert (Hh : is_int ((tideSeed city date * Num 5) rem Num 8)%js
                      ((z * 5) mod 8))
    by exact (is_int_scaled_rem _ z 5 8 Hseed Hz ltac:(lia) ltac:(lia)).
  assert (Hl : is_int ((tideSeed city date * Num 3) rem Num 5)%js
                      ((z * 3) mod 5))
    by exact (is_int_scaled_rem _ z 3 5 Hseed Hz ltac:(lia) ltac:(lia)).
  rewrite (roundTo1_tenths 2.0 20 _ _ eq_refl Hh) in Hgen.
  rewrite (roundTo1_tenths 0.4 4 _ _ eq_refl Hl) in Hgen.
  clear Hh Hl.
  eexists _, _, _. split; [exact Hgen|]. cbn [monthlyAvgLow monthlyAvgHigh].
  split; [reflexivity|]. split; [reflexivity|].
  pose proof (Z.mod_pos_bound (z * 5) 8 ltac:(lia)) as Hh.
  pose proof (Z.mod_pos_bound (z * 3) 5 ltac:(lia)) as Hl.
  destruct (tenths_bounds (4 + (z * 3) mod 5) 4 8 ltac:(lia)) as [L1 L2].
  destruct (tenths_bounds (20 + (z * 5) mod 8) 20 27 ltac:(lia)) as [H1 H2].
  repeat split; try assumption.
  eapply Qle_lt_trans; [exact L2|]. eapply Qlt_le_trans; [|exact H1].
  reflexivity.
Qed.

Lemma padStart_two_digits n :
  (0 <= n < 100)%Z ->
  padStart (NilZero.string_of_int (Z.to_int n)) 2 "0" = twoDigits n.
Proof.
  intros Hn.
  assert (Hall : forallb
            (fun k => String.eqb
               (padStart (NilZero.string_of_int (Z.to_int (Z.of_nat k))) 2 "0")
               (twoDigits (Z.of_nat k)))
            (seq 0 100) = true) by (vm_compute; reflexivity).
  rewrite forallb_forall in Hall.
  specialize (Hall (Z.to_nat n)). rewrite Z2Nat.id in Hall by lia.
  apply String.eqb_eq, Hall. apply in_seq. lia.
Qed.

Lemma timeText_two_digits hour minute h m :
  is_int hour h -> is_int minute m ->
  (0 <= h < 100)%Z -> (0 <= m < 100)%Z ->
  timeText hour minute = (twoDigits h +:+ ":" +:+ twoDigits m)%string.
Proof.
  intros Hh Hm Bh Bm. unfold timeText.
  rewrite (String_is_int _ _ Hh), (String_is_int _ _ Hm).
  rewrite !padStart_two_digits by assumption. reflexivity.
Qed.

(** X2. For a non-empty city and a valid date, nextHigh and nextLow are two
    digits, a colon and two digits; the hour of the next high tide is
    12..23, the hour of the next low tide is 01..10, the minutes are
    00..59. *)
Theorem tide_times_format sin pi rand (city : string) (date : Date) :
  city <> ""%string -> valid_date date = true ->
  exists r hh hm lh lm,
    generateTideDataForDate sin pi rand city date = Normal r
    /\ nextHigh r = (twoDigits hh +:+ ":" +:+ twoDigits hm)%string
    /\ nextLow r = (twoDigits lh +:+ ":" +:+ twoDigits lm)%string
    /\ (12 <= hh <= 23)%Z /\ (0 <= hm <= 59)%Z
    /\ (1 <= lh <= 10)%Z /\ (0 <= lm <= 59)%Z.
Proof.
  intros Hcity Hdate.
  destruct (valid_seed city date Hcity Hdate) as (z & Hz & Hseed).
  pose proof (generate_returns_history sin pi rand city date) as Hgen.
  cbv zeta in Hgen.
  assert (H7 : is_int ((tideSeed city date * Num 7) rem Num 12 + Num 12)%js
                      ((z * 7) mod 12 + 12)).
  { apply is_int_add; [|exact (is_int_of_Z 12)].
    exact (is_int_scaled_rem _ z 7 12 Hseed Hz ltac:(lia) ltac:(lia)). }
  assert (H13 : is_int ((tideSeed city date * Num 13) rem Num 60)%js
                       ((z * 13) mod 60))
    by exact (is_int_scaled_rem _ z 13 60 Hseed Hz ltac:(lia) ltac:(lia)).
  assert (H3 : is_int ((tideSeed city date * Num 3) rem Num 10 + Num 1)%js
                      ((z * 3) mod 10 + 1)).
  { apply is_int_add; [|exact (is_int_of_Z 1)].
    exact (is_int_scaled_rem _ z 3 10 Hseed Hz ltac:(lia) ltac:(lia)). }
  assert (H19 : is_int ((tideSeed city date * Num 19) rem Num 60)%js
                       ((z * 19) mod 60))
    by exact (is_int_scaled_rem _ z 19 60 Hseed Hz ltac:(lia) ltac:(lia)).
  pose proof (Z.mod_pos_bound (z * 7) 12 ltac:(lia)).
  pose proof (Z.mod_pos_bound (z * 13) 60 ltac:(lia)).
  pose proof (Z.mod_pos_bound (z * 3) 10 ltac:(lia)).
  pose proof (Z.mod_pos_bound (z * 19) 60 ltac:(lia)).
  eexists _, ((z * 7) mod 12 + 12)%Z, ((z * 13) mod 60)%Z,
           ((z * 3) mod 10 + 1)%Z, ((z * 19) mod 60)%Z.
  split; [exact Hgen|]. cbn [nextHigh nextLow].
  split; [apply timeText_two_digits; (assumption || lia)|].
  split; [apply timeText_two_digits; (assumption || lia)|].
  lia.
Qed.

Lemma tide_times_format_witness :
  exists r hh hm lh lm,
    generateTideDataForDate Samples.flat_sin Samples.PI_approx
      Samples.mid_random "Jakarta" Samples.march15 = Normal r
    /\ nextHigh r = (twoDigits hh +:+ ":" +:+ twoDigits hm)%string
    /\ nextLow r = (twoDigits lh +:+ ":" +:+ twoDigits lm)%string
    /\ (12 <= hh <= 23)%Z /\ (0 <= hm <= 59)%Z
    /\ (1 <= lh <= 10)%Z /\ (0 <= lm <= 59)%Z.
Proof.
  apply tide_times_format.
  - discriminate.
  - reflexivity.
Defined.

Lemma monthly_averages_ranges_witness :
  exists r lo hi,
    generateTideDataForDate Samples.flat_sin Samples.PI_approx
      Samples.mid_random "Jakarta" Samples.march15 = Normal r
    /\ monthlyAvgLow r = Num lo /\ monthlyAvgHigh r = Num hi
    /\ 0.4 <= lo /\ lo <= 0.8 /\ 2.0 <= hi /\ hi <= 2.7 /\ lo < hi.
Proof.
  apply monthly_averages_ranges.
  - discriminate.
  - reflexivity.
Defined.
Lemma Qround_half_away_mono x y :
  x <= y -> (Qround_half_away x <= Qround_half_away y)%Z.
Proof.
  intros Hxy. unfold Qround_half_away.
  destruct (Qle_bool 0 x) eqn:Ex; destruct (Qle_bool 0 y) eqn:Ey.
  - apply Qfloor_resp_le. lra.
  - apply Qle_bool_iff in Ex.
    assert (Hy : ~ 0 <= y) by (intros H; apply Qle_bool_iff in H; congruence).
    exfalso. apply Hy. lra.
  - assert (Hx : ~ 0 <= x) by (intros H; apply Qle_bool_iff in H; congruence).
    apply Qle_bool_iff in Ey.
    assert (H1 : (0 <= Qfloor (- x + (1 # 2)))%Z).
    { change 0%Z with (Qfloor 0). apply Qfloor_resp_le. lra. }
    assert (H2 : (0 <= Qfloor (y + (1 # 2)))%Z).
    { change 0%Z with (Qfloor 0). apply Qfloor_resp_le. lra. }
    lia.
  - assert (H1 : (Qfloor (- y + (1 # 2)) <= Qfloor (- x + (1 # 2)))%Z)
      by (apply Qfloor_resp_le; lra).
    lia.
Qed.

Lemma roundTo1_between q a b :
  inject_Z a <= q * 10 -> q * 10 <= inject_Z b ->
  exists n, roundTo1 (Num q) = Num (inject_Z n / pow10 1)
            /\ (a <= n <= b)%Z.
Proof.
  intros Ha Hb. unfold roundTo1. cbn [fixed_numeral parseFloat].
  eexists. split; [reflexivity|].
  rewrite <- (Qround_half_away_Z a), <- (Qround_half_away_Z b).
  split; apply Qround_half_away_mono; rewrite pow10_1; assumption.
Qed.

Lemma history_value_bounds lo hi s u :
  lo <= hi -> -1 <= s -> s <= 1 -> 0 <= u -> u < 1 ->
  lo - 0.1 <= (lo + hi) / 2 + s * ((hi - lo) / 2) + (u - 0.5) * 0.2
  /\ (lo + hi) / 2 + s * ((hi - lo) / 2) + (u - 0.5) * 0.2 <= hi + 0.1.
Proof.
  intros Hlh Hs1 Hs2 Hu1 Hu2.
  assert (Ea : (hi - lo) / 2 == (hi - lo) * (1 # 2)) by field.
  assert (Eb : (lo + hi) / 2 == (lo + hi) * (1 # 2)) by field.
  rewrite Ea, Eb.
  assert (Ha : 0 <= (hi - lo) * (1 # 2)) by lra.
  assert (H1 : s * ((hi - lo) * (1 # 2)) <= 1 * ((hi - lo) * (1 # 2)))
    by (apply Qmult_le_compat_r; assumption).
  assert (H2 : (-1) * ((hi - lo) * (1 # 2)) <= s * ((hi - lo) * (1 # 2)))
    by (apply Qmult_le_compat_r; assumption).
  split; lra.
Qed.

Lemma inject_Z_pred z : inject_Z (z - 1) == inject_Z z - 1.
Proof.
  unfold Qeq, Qminus, Qplus, Qopp, inject_Z. simpl. lia.
Qed.

Lemma inject_Z_succ z : inject_Z (z + 1) == inject_Z z + 1.
Proof. rewrite inject_Z_plus. reflexivity. Qed.

Lemma historySample_bounds sin p rand seed z (L H : Z) i :
  (forall q, exists s, sin (Num q) = Num s /\ -1 <= s /\ s <= 1) ->
  (exists u, rand i = Num u /\ 0 <= u /\ u < 1) ->
  is_int seed z -> (0 <= z)%Z -> (4 <= L <= 8)%Z -> (20 <= H <= 27)%Z ->
  exists n,
    historySample sin (Num p) rand seed
      (Num (inject_Z L / pow10 1)) (Num (inject_Z H / pow10 1)) i
    = Num (inject_Z n / pow10 1)
    /\ (L - 1 <= n <= H + 1)%Z.
Proof.
  intros Hsin (u & Eu & Hu1 & Hu2) Hseed Hz HL HH.
  assert (H24 : is_int (seed rem Num 24)%js (z mod 24))
    by (apply is_int_rem; [exact Hseed | exact (is_int_of_Z 24) | lia | lia]).
  unfold historySample. cbv zeta.
  destruct (seed rem Num 24)%js as [|q24]; [contradiction|].
  rewrite Eu. cbn [add sub mul div lift2 of_nat of_Z Math_max].
  change (Qeq_bool 24 0) with false. change (Qeq_bool 2 0) with false.
  cbv iota. cbn [add sub mul div lift2].
  match goal with |- context [sin (Num ?a)] =>
    destruct (Hsin a) as (s & Es & Hs1 & Hs2); rewrite Es end.
  cbn [add sub mul div lift2 Math_max].
  set (lo := inject_Z L / pow10 1). set (hi := inject_Z H / pow10 1).
  assert (Elo : lo == inject_Z L * (1 # 10))
    by (unfold lo; rewrite pow10_1; field).
  assert (Ehi : hi == inject_Z H * (1 # 10))
    by (unfold hi; rewrite pow10_1; field).
  assert (BL : 4 <= inject_Z L /\ inject_Z L <= 8)
    by (split; unfold Qle; simpl; lia).
  assert (BH : 20 <= inject_Z H /\ inject_Z H <= 27)
    by (split; unfold Qle; simpl; lia).
  destruct (history_value_bounds lo hi s u) as [V1 V2]; try assumption; [lra|].
  set (v := (lo + hi) / 2 + s * ((hi - lo) / 2) + (u - 0.5) * 0.2) in *.
  assert (M1 : v <= Qmax 0.1 v) by apply Q.le_max_r.
  assert (M2 : Qmax 0.1 v <= hi + 0.1) by (apply Q.max_lub; lra).
  apply roundTo1_between.
  - rewrite inject_Z_pred. lra.
  - rewrite inject_Z_succ. lra.
Qed.

(** X3. For a non-empty city and a valid date, when [Math.sin] stays
    within [-1, 1], [Math.PI] is a number and [Math.random] within [0, 1),
    the history has 24 samples and each of them is a number between the
    monthly average low minus 0.1 and the monthly average high plus 0.1
    (so the floor at 0.1 is never reached). *)
Theorem history_within_averages sin pi rand (city : string) (date : Date) :
  city <> ""%string -> valid_date date = true ->
  (forall q, exists s, sin (Num q) = Num s /\ -1 <= s /\ s <= 1) ->
  pi <> NaN ->
  (forall i, exists u, rand i = Num u /\ 0 <= u /\ u < 1) ->
  exists r lo hi,
    generateTideDataForDate sin pi rand city date = Normal r
    /\ monthlyAvgLow r = Num lo /\ monthlyAvgHigh r = Num hi
    /\ length (past24h r) = 24%nat
    /\ Forall (fun sample => exists q, sample = Num q
                                      /\ lo - 0.1 <= q /\ q <= hi + 0.1)
              (past24h r).
Proof.
  intros Hcity Hdate Hsin Hpi Hrand.
  destruct pi as [|p]; [congruence|].
  destruct (valid_seed city date Hcity Hdate) as (z & Hz & Hseed).
  pose proof (generate_returns_history sin (Num p) rand city date) as Hgen.
  cbv zeta in Hgen.
  assert (Hh : is_int ((tideSeed city date * Num 5) rem Num 8)%js
                      ((z * 5) mod 8))
    by exact (is_int_scaled_rem _ z 5 8 Hseed Hz ltac:(lia) ltac:(lia)).
  assert (Hl : is_int ((tideSeed city date * Num 3) rem Num 5)%js
                      ((z * 3) mod 5))
    by exact (is_int_scaled_rem _ z 3 5 Hseed Hz ltac:(lia) ltac:(lia)).
  rewrite (roundTo1_tenths 2.0 20 _ _ eq_refl Hh) in Hgen.
  rewrite (roundTo1_tenths 0.4 4 _ _ eq_refl Hl) in Hgen.
  clear Hh Hl.
  pose proof (Z.mod_pos_bound (z * 5) 8 ltac:(lia)) as Bh.
  pose proof (Z.mod_pos_bound (z * 3) 5 ltac:(lia)) as Bl.
  eexists _, _, _. split; [exact Hgen|].
  cbn [monthlyAvgLow monthlyAvgHigh past24h].
  split; [reflexivity|]. split; [reflexivity|].
  split; [rewrite length_map, length_seq; reflexivity|].
  apply List.Forall_forall. intros sample Hin. apply in_map_iff in Hin.
  destruct Hin as (i & <- & _).
  destruct (historySample_bounds sin p rand (tideSeed city date) z
              (4 + (z * 3) mod 5) (20 + (z * 5) mod 8) i Hsin (Hrand i)
              Hseed Hz ltac:(lia) ltac:(lia)) as (n & En & Bn).
  rewrite En. eexists. split; [reflexivity|].
  set (L := (4 + (z * 3) mod 5)%Z) in *. set (H := (20 + (z * 5) mod 8)%Z) in *.
  rewrite !pow10_1.
  assert (E1 : inject_Z L / 10 - 0.1 == inject_Z (L - 1) / 10)
    by (rewrite inject_Z_pred; field).
  assert (E2 : inject_Z H / 10 + 0.1 == inject_Z (H + 1) / 10)
    by (rewrite inject_Z_succ; field).
  rewrite E1, E2.
  split; apply Qmult_le_compat_r; try (unfold Qle; simpl; lia).
Qed.

Lemma history_within_averages_witness :
  exists r lo hi,
    generateTideDataForDate Samples.flat_sin Samples.PI_approx
      Samples.mid_random "Jakarta" Samples.march15 = Normal r
    /\ monthlyAvgLow r = Num lo /\ monthlyAvgHigh r = Num hi
    /\ length (past24h r) = 24%nat
    /\ Forall (fun sample => exists q, sample = Num q
                                      /\ lo - 0.1 <= q /\ q <= hi + 0.1)
              (past24h r).
Proof.
  apply history_within_averages.
  - discriminate.
  - reflexivity.
  - intros q. exists 0. repeat split; discriminate.
  - discriminate.
  - intros i. exists 0.5. repeat split; discriminate.
Defined.
End GeneratorMore.

Section DetectorMore.
Import JS Builtins Detector DetectorPanel.
Local Open Scope Q_scope.

Lemma base_level_is_int (city : string) y m d :
  city <> ""%string -> valid_date (DateOf y m d) = true -> (0 <= y)%Z ->
  exists n, is_int (generateBaseWaterLevel city (DateOf y m d)) n
            /\ (10 <= n <= 90)%Z.
Proof.
  intros Hcity Hdate Hy.
  destruct city as [|c0 rest]; [congruence|].
  simpl in Hdate.
  pose proof (charCode_nonneg c0) as H0.
  pose proof (secondCode_nonneg rest) as H1.
  pose proof (waterLevelSeed_is_int c0 rest y m d) as Hseed.
  set (z := (d + m * 31 + y + charCode c0 + Tides.secondCode rest)%Z) in *.
  exists (10 + z mod 81)%Z. split.
  - unfold generateBaseWaterLevel. cbv zeta.
    apply is_int_add; [exact (is_int_of_Z 10)|].
    apply is_int_rem; [exact Hseed | exact (is_int_of_Z 81) | lia | lia].
  - pose proof (Z.mod_pos_bound z 81 ltac:(lia)). lia.
Qed.

(** X4. For a non-empty city and a valid date of a year that is not
    negative, the base water level is an integer between 10 and 90. *)
Theorem base_water_level_range (city : string) (year monthIndex day : Z) :
  city <> ""%string ->
  valid_date (DateOf year monthIndex day) = true ->
  (0 <= year)%Z ->
  exists n,
    num_eq (generateBaseWaterLevel city (DateOf year monthIndex day)) (of_Z n)
    /\ (10 <= n <= 90)%Z.
Proof.
  intros Hcity Hdate Hy.
  destruct (base_level_is_int city year monthIndex day Hcity Hdate Hy)
    as (n & Hn & Bn).
  exists n. split; [apply is_int_num_eq, Hn | exact Bn].
Qed.

Lemma base_water_level_range_witness :
  exists n,
    num_eq (generateBaseWaterLevel "Jakarta" Samples.march15) (of_Z n)
    /\ (10 <= n <= 90)%Z.
Proof.
  apply base_water_level_range.
  - discriminate.
  - reflexivity.
  - discriminate.
Defined.

(** Before year 0 the seed can be negative, and so can the level. *)
Example base_water_level_negative_year :
  generateBaseWaterLevel "Jakarta" (DateOf (-2024) 2 15) = Num (-65).
Proof. vm_compute. reflexivity. Qed.

Lemma Qclamp_cases x :
  0 <= Qmax 0 (Qmin 100 x) /\ Qmax 0 (Qmin 100 x) <= 100
  /\ (x <= 0 /\ Qmax 0 (Qmin 100 x) == 0
      \/ 0 <= x /\ x <= 100 /\ Qmax 0 (Qmin 100 x) == x
      \/ 100 <= x /\ Qmax 0 (Qmin 100 x) == 100).
Proof.
  split; [apply Q.le_max_l|]. split.
  - apply Q.max_lub; [discriminate | apply Q.le_min_l].
  - destruct (Qlt_le_dec x 0) as [H0|H0].
    + left. split; [lra|]. apply Q.max_l.
      eapply Qle_trans; [apply Q.le_min_r | lra].
    + destruct (Qlt_le_dec 100 x) as [H1|H1].
      * right; right. split; [lra|].
        rewrite (Q.min_l 100 x) by lra. apply Q.max_r. discriminate.
      * right; left. split; [exact H0|]. split; [exact H1|].
        rewrite (Q.min_r 100 x) by exact H1. apply Q.max_r, H0.
Qed.

Lemma tick_result b u p :
  exists q,
    tick (Num b) (Num u) (Num p) = Num q
    /\ 0 <= q /\ q <= 100
    /\ (0 <= u -> u < 1 -> 0 <= p -> p <= 100 ->
        p - 2.5 <= q /\ q <= p + 2.5).
Proof.
  unfold tick. cbv zeta. cbn [add sub mul lift2 Math_abs gt].
  set (n := p + (u - 0.5) * 4).
  destruct (negb (Qle_bool (Qabs (n - b)) 15));
    [destruct (negb (Qle_bool n b))|];
    cbn [add sub lift2 Math_max Math_min];
    (eexists; split; [reflexivity|]);
    match goal with |- context [Qmax 0 (Qmin 100 ?x)] =>
      destruct (Qclamp_cases x) as (C0 & C1 & C);
      generalize dependent (Qmax 0 (Qmin 100 x))
    end;
    intros c C0 C1 C; (split; [exact C0|]); (split; [exact C1|]);
    intros Hu0 Hu1 Hp0 Hp1; unfold n in *;
    destruct C as [[Cx Ec]|[(Cx0 & Cx1 & Ec)|[Cx Ec]]]; rewrite Ec; split; lra.
Qed.

(** X5. One tick of the gauge, from a level within [0, 100] and with
    [Math.random] within [0, 1), gives a level within [0, 100] that is at
    most 2.5 away from the previous one, whatever the base level. *)
Theorem tick_step_bounded (baseLevel random prevLevel : Q) :
  0 <= random -> random < 1 -> 0 <= prevLevel -> prevLevel <= 100 ->
  exists level,
    tick (Num baseLevel) (Num random) (Num prevLevel) = Num level
    /\ 0 <= level /\ level <= 100
    /\ prevLevel - 2.5 <= level /\ level <= prevLevel + 2.5.
Proof.
  intros Hu0 Hu1 Hp0 Hp1.
  destruct (tick_result baseLevel random prevLevel) as (q & E & H0 & H1 & Hs).
  destruct (Hs Hu0 Hu1 Hp0 Hp1) as [S1 S2].
  exists q. repeat split; assumption.
Qed.

Lemma tick_step_bounded_witness :
  exists level,
    tick (Num 14) (Num 0.99) (Num 30) = Num level
    /\ 0 <= level /\ level <= 100
    /\ 30 - 2.5 <= level /\ level <= 30 + 2.5.
Proof. apply tick_step_bounded; discriminate || reflexivity. Defined.

Lemma ticks_stay_in_range b (randoms : list number) : forall p,
  Forall (fun random => exists u, random = Num u) randoms ->
  0 <= p -> p <= 100 ->
  exists q,
    fold_left (fun prevLevel random => tick (Num b) random prevLevel)
              randoms (Num p) = Num q
    /\ 0 <= q /\ q <= 100.
Proof.
  induction randoms as [|r rs IH]; intros p Hall Hp0 Hp1.
  - exists p. repeat split; assumption.
  - apply Forall_cons in Hall. destruct Hall as [(u & ->) Hrs].
    cbn [fold_left].
    destruct (tick_result b u p) as (q & E & H0 & H1 & _). rewrite E.
    apply IH; assumption.
Qed.

(** X6. For a non-empty city and a valid date of a year that is not
    negative, the level on display stays a number within [0, 100] after any
    number of ticks, whatever numbers [Math.random] yields. *)
Theorem water_level_stays_in_range (city : string) (year monthIndex day : Z)
    (randoms : list number) :
  city <> ""%string ->
  valid_date (DateOf year monthIndex day) = true ->
  (0 <= year)%Z ->
  Forall (fun random => exists u, random = Num u) randoms ->
  exists level,
    waterLevelAfter city (DateOf year monthIndex day) randoms = Num level
    /\ 0 <= level /\ level <= 100.
Proof.
  intros Hcity Hdate Hy Hall.
  destruct (base_level_is_int city year monthIndex day Hcity Hdate Hy)
    as (n & Hn & Bn).
  unfold waterLevelAfter. cbv zeta.
  destruct (generateBaseWaterLevel city (DateOf year monthIndex day))
    as [|b]; [contradiction|].
  simpl in Hn. apply ticks_stay_in_range; [exact Hall | |];
    rewrite Hn; unfold Qle; simpl; lia.
Qed.

Lemma water_level_stays_in_range_witness :
  exists level,
    waterLevelAfter "Jakarta" Samples.march15 [Num 0.1; Num 0.9; Num 0.99]
    = Num level
    /\ 0 <= level /\ level <= 100.
Proof.
  apply water_level_stays_in_range.
  - discriminate.
  - reflexivity.
  - discriminate.
  - repeat constructor; eexists; reflexivity.
Defined.
End DetectorMore.

(** ** Pan and zoom, continued *)

Section MapMore.
Import IndonesiaMap.
Local Open Scope Q_scope.

Lemma clamp_comp a b lo hi : a == b -> clamp a lo hi == clamp b lo hi.
Proof.
  intros H. unfold clamp.
  apply Q.max_compat; [reflexivity|]. apply Q.min_compat; [reflexivity|exact H].
Qed.

Lemma clamp_pinned value z : 0 <= z -> clamp value (Qmin 0 z) 0 == 0.
Proof.
  intros Hz. apply Qle_antisym.
  - apply clamp_upper, Q.le_min_l.
  - eapply Qle_trans; [|apply clamp_lower]. apply Q.min_glb; [discriminate|exact Hz].
Qed.

(** X7. A press, rendered, followed by a move keeps the scale and sets each
    translation to the translation on display at the press plus the
    displacement of the pointer, clamped to the bounds; with no update
    pending at the press and a transform within its bounds, a move to the
    point of the press leaves the translation as it was. *)
Theorem drag_follows_pointer (svgRect : DOMRect) (c : Component)
    (down move : MouseEvent) :
  let shown := renderedTransform (rendered c) in
  let t := transform (state c) in
  let t' := transform (state (run c [MouseDown down; Rerender;
                                     MouseMove (Some svgRect) move])) in
  scale t' = scale t
  /\ x t' == clamp (x shown + (clientX move - clientX down))
                   (Qmin 0 (width svgRect - 1000 * scale t)) 0
  /\ y t' == clamp (y shown + (clientY move - clientY down))
                   (Qmin 0 (height svgRect - 500 * scale t)) 0
  /\ (shown = t -> view_invariant svgRect t ->
      clientX move == clientX down -> clientY move == clientY down ->
      x t' == x t /\ y t' == y t).
Proof.
  destruct c as [[shown p] st].
  cbv zeta. cbn [run fold_left step state rendered render].
  unfold handleMouseMove, handleMouseDown, render.
  cbn [renderedPanning renderedTransform isPanning transform startPoint
       px py scale x y].
  assert (EX : clientX move - (clientX down - x shown)
               == x shown + (clientX move - clientX down)) by ring.
  assert (EY : clientY move - (clientY down - y shown)
               == y shown + (clientY move - clientY down)) by ring.
  split; [reflexivity|].
  split; [apply clamp_comp, EX|]. split; [apply clamp_comp, EY|].
  intros Hs (_ & _ & [X1 X2] & [Y1 Y2]) HX HY. rewrite <- Hs in *. split.
  - rewrite (clamp_comp _ (x shown)) by (rewrite HX; ring).
    apply clamp_id; assumption.
  - rewrite (clamp_comp _ (y shown)) by (rewrite HY; ring).
    apply clamp_id; assumption.
Qed.

Lemma drag_follows_pointer_witness :
  let st := mkMapState (mkTransform 2 (-100) (-50)) false (mkPoint 0 0) in
  let down := mkMouseEvent 200 100 in
  let t' := transform (state (run (mkComponent (render st) st)
                                  [MouseDown down; Rerender;
                                   MouseMove (Some Samples.narrowRect) down])) in
  x t' == -100 /\ y t' == -50.
Proof.
  cbv zeta.
  refine (proj2 (proj2 (proj2 (drag_follows_pointer Samples.narrowRect
            (mkComponent
               (render (mkMapState (mkTransform 2 (-100) (-50)) false
                                   (mkPoint 0 0)))
               (mkMapState (mkTransform 2 (-100) (-50)) false (mkPoint 0 0)))
            (mkMouseEvent 200 100) (mkMouseEvent 200 100)))) _ _ _ _).
  - reflexivity.
  - unfold view_invariant, within_bounds. vm_compute.
    repeat split; discriminate.
  - reflexivity.
  - reflexivity.
Defined.

Lemma moves_without_panning (moves : list (option DOMRect * MouseEvent)) :
  forall c,
  renderedPanning (rendered c) = false ->
  run c (map (fun m => MouseMove (fst m) (snd m)) moves) = c.
Proof.
  induction moves as [|m ms IH]; intros c Hp; [reflexivity|].
  cbn [map run fold_left step]. unfold handleMouseMove. rewrite Hp.
  destruct c as [r st]. apply (IH (mkComponent r st)), Hp.
Qed.

(** X8. While the render on display is not panning, pointer moves leave the
    whole component unchanged, whatever the rectangle of the svg element;
    in particular once a release or a leave is rendered, no sequence of
    moves changes the transform. *)
Theorem moves_ignored_unless_panning (c : Component)
    (moves : list (option DOMRect * MouseEvent)) :
  let evs := map (fun m => MouseMove (fst m) (snd m)) moves in
  (renderedPanning (rendered c) = false -> run c evs = c)
  /\ transform (state (run c (MouseUp :: Rerender :: evs)))
     = transform (state c)
  /\ transform (state (run c (MouseLeave :: Rerender :: evs)))
     = transform (state c).
Proof.
  cbv zeta. split; [apply moves_without_panning|].
  split; cbn [run fold_left step];
    match goal with
    | |- context [fold_left step ?evs ?c0] =>
        change (fold_left step evs c0) with (run c0 evs)
    end;
    rewrite moves_without_panning by reflexivity; reflexivity.
Qed.

Lemma moves_ignored_unless_panning_witness :
  run mount
      (map (fun m => MouseMove (fst m) (snd m))
           [(Some Samples.narrowRect, mkMouseEvent 10 10);
            (Some Samples.roomyRect, mkMouseEvent 500 20)])
  = mount.
Proof.
  apply (proj1 (moves_ignored_unless_panning mount
                  [(Some Samples.narrowRect, mkMouseEvent 10 10);
                   (Some Samples.roomyRect, mkMouseEvent 500 20)])).
  reflexivity.
Defined.

Lemma handleWheel_scale svgRef t e :
  scale (handleWheel svgRef t e) = scale t
  \/ scale (handleWheel svgRef t e) = newScale t e.
Proof.
  unfold handleWheel. destruct svgRef as [svgRect|]; [|left; reflexivity].
  cbv zeta. destruct (Qeq_bool (newScale t e) (scale t));
    [left | right]; reflexivity.
Qed.

Lemma zoomFactor_in e : deltaY e < 0 -> zoomFactor e = 1.1.
Proof.
  intros H. unfold zoomFactor, Qlt_bool.
  destruct (Qle_bool 0 (deltaY e)) eqn:E; [|reflexivity].
  apply Qle_bool_iff in E. exfalso. apply (Qlt_not_le _ _ H E).
Qed.

Lemma zoomFactor_out e : 0 <= deltaY e -> zoomFactor e = 1 / 1.1.
Proof.
  intros H. unfold zoomFactor, Qlt_bool.
  apply Qle_bool_iff in H. rewrite H. reflexivity.
Qed.

(** X9. On a transform whose scale is within [1, 5], a wheel event with a
    negative deltaY never decreases the scale and any other wheel event
    never increases it. *)
Theorem wheel_direction (svgRef : option DOMRect) (t : Transform)
    (e : WheelEvent) :
  1 <= scale t -> scale t <= 5 ->
  (deltaY e < 0 -> scale t <= scale (handleWheel svgRef t e))
  /\ (0 <= deltaY e -> scale (handleWheel svgRef t e) <= scale t).
Proof.
  intros H1 H5. split; intros Hd;
    destruct (handleWheel_scale svgRef t e) as [E|E]; rewrite E;
    try apply Qle_refl; unfold newScale, clamp, MIN_SCALE, MAX_SCALE.
  - rewrite (zoomFactor_in e Hd).
    eapply Qle_trans; [|apply Q.le_max_r]. apply Q.min_glb; lra.
  - rewrite (zoomFactor_out e Hd).
    assert (F : 1 / 1.1 == 10 # 11) by reflexivity.
    apply Q.max_lub; [exact H1|].
    eapply Qle_trans; [apply Q.le_min_r|]. rewrite F. lra.
Qed.

Lemma wheel_direction_witness :
  scale (mkTransform 2 0 0)
  <= scale (handleWheel (Some Samples.narrowRect) (mkTransform 2 0 0)
                        Samples.zoomInAtCentre)
  /\ scale (handleWheel (Some Samples.narrowRect) (mkTransform 2 0 0)
                        Samples.zoomOutAtCentre)
     <= scale (mkTransform 2 0 0).
Proof.
  split.
  - apply (proj1 (wheel_direction (Some Samples.narrowRect)
                    (mkTransform 2 0 0) Samples.zoomInAtCentre
                    ltac:(discriminate) ltac:(discriminate))).
    reflexivity.
  - apply (proj2 (wheel_direction (Some Samples.narrowRect)
                    (mkTransform 2 0 0) Samples.zoomOutAtCentre
                    ltac:(discriminate) ltac:(discriminate))).
    discriminate.
Defined.

(** X10. On an axis where the content is not larger than the viewport at
    the scale the handler computes its bounds with, the translation is
    forced to 0.  For a wheel event that changes the scale this is the new
    scale.  For a pan move it is the scale of the render on display, which
    is the scale of the resulting transform when no update is pending. *)
Theorem fitting_content_is_pinned (svgRect : DOMRect) (r : Render)
    (st : MapState) (move : MouseEvent) (e : WheelEvent) :
  (renderedPanning r = true ->
   1000 * scale (renderedTransform r) <= width svgRect ->
   x (transform (handleMouseMove (Some svgRect) r st move)) == 0)
  /\ (renderedPanning r = true ->
      500 * scale (renderedTransform r) <= height svgRect ->
      y (transform (handleMouseMove (Some svgRect) r st move)) == 0)
  /\ (renderedPanning r = true -> renderedTransform r = transform st ->
      let t' := transform (handleMouseMove (Some svgRect) r st move) in
      (1000 * scale t' <= width svgRect -> x t' == 0)
      /\ (500 * scale t' <= height svgRect -> y t' == 0))
  /\ (~ newScale (renderedTransform r) e == scale (renderedTransform r) ->
      let t' := transform (onWheel (Some svgRect) r st e) in
      (1000 * scale t' <= width svgRect -> x t' == 0)
      /\ (500 * scale t' <= height svgRect -> y t' == 0)).
Proof.
  split; [|split; [|split]].
  - intros Hp Hw. unfold handleMouseMove. rewrite Hp. cbv zeta.
    cbn [transform x]. apply clamp_pinned. lra.
  - intros Hp Hh. unfold handleMouseMove. rewrite Hp. cbv zeta.
    cbn [transform y]. apply clamp_pinned. lra.
  - intros Hp Hr. cbv zeta. unfold handleMouseMove. rewrite Hp. cbv zeta.
    cbn [transform scale x y]. rewrite Hr.
    split; intros H; apply clamp_pinned; lra.
  - intros Hne. cbv zeta. rewrite onWheel_transform.
    destruct (Qeq_bool _ _) eqn:E; [apply Qeq_bool_iff in E; contradiction|].
    rewrite (handleWheel_changed svgRect _ e Hne).
    cbv zeta. cbn [scale x y]. split; intros H; apply clamp_pinned; lra.
Qed.

Lemma fitting_content_is_pinned_witness :
  let wide := mkDOMRect 0 0 1200 600 in
  let st := mkMapState initialTransform true (mkPoint 300 100) in
  x (transform (handleMouseMove (Some wide) (render st) st
                                (mkMouseEvent 250 90))) == 0
  /\ x (transform (onWheel (Some wide) (render st) st
                           Samples.zoomInAtCentre)) == 0.
Proof.
  cbv zeta. split.
  - apply (proj1 (fitting_content_is_pinned (mkDOMRect 0 0 1200 600)
                    (render (mkMapState initialTransform true
                                        (mkPoint 300 100)))
                    (mkMapState initialTransform true (mkPoint 300 100))
                    (mkMouseEvent 250 90) Samples.zoomInAtCentre)).
    + reflexivity.
    + vm_compute. discriminate.
  - apply (proj2 (proj2 (proj2 (fitting_content_is_pinned
                    (mkDOMRect 0 0 1200 600)
                    (render (mkMapState initialTransform true
                                        (mkPoint 300 100)))
                    (mkMapState initialTransform true (mkPoint 300 100))
                    (mkMouseEvent 250 90) Samples.zoomInAtCentre)))).
    + vm_compute. discriminate.
    + vm_compute. discriminate.
Defined.

(** With a zoom out pending, the fit is judged at the scale on display: in
    a 1050 by 525 viewport the content of scale 1 fits, and the pan move
    leaves it at -50 and -25. *)
Example pending_zoom_out_is_not_pinned :
  let t := transform (state (run mount Samples.zoomOutThenDragRoomy)) in
  scale t == 1 /\ x t == -50 /\ y t == -25
  /\ 1000 * scale t <= width Samples.roomyRect
  /\ 500 * scale t <= height Samples.roomyRect.
Proof.
  cbv zeta. vm_compute. repeat split; try reflexivity; discriminate.
Qed.

End MapMore.

(** ** The service worker, from install to fetch *)

Section LifecycleFacts.
Import JS ServiceWorker Lifecycle.

Lemma match_url_store cs name url response :
  match_url cs url = None ->
  match_url (cache_store cs name url response) url = Some response.
Proof.
  induction cs as [|[n c] rest IH]; simpl.
  - intros _. rewrite lookup_singleton_eq. reflexivity.
  - destruct (c !! url) eqn:Ec; [discriminate|]. intros Hrest.
    destruct (String.eqb n name); simpl.
    + rewrite lookup_insert_eq. reflexivity.
    + rewrite Ec. apply IH, Hrest.
Qed.

Lemma match_url_store_same cs name url response :
  match_url cs url = Some response ->
  match_url (cache_store cs name url response) url = Some response.
Proof.
  induction cs as [|[n c] rest IH]; simpl; [discriminate|].
  destruct (c !! url) eqn:Ec.
  - intros H. destruct (String.eqb n name); simpl.
    + rewrite lookup_insert_eq. reflexivity.
    + rewrite Ec. exact H.
  - intros H. destruct (String.eqb n name); simpl.
    + rewrite lookup_insert_eq. reflexivity.
    + rewrite Ec. apply IH, H.
Qed.

Lemma match_url_store_ne cs name url other response :
  other <> url ->
  match_url (cache_store cs name other response) url = match_url cs url.
Proof.
  intros Hne. induction cs as [|[n c] rest IH]; simpl.
  - rewrite lookup_singleton_ne by exact Hne. reflexivity.
  - destruct (String.eqb n name); simpl.
    + rewrite lookup_insert_ne by exact Hne. reflexivity.
    + rewrite IH. reflexivity.
Qed.

(** X11. After a miss of a GET request answered by the network with a
    response that is stored (status 200 or opaque), and with no other
    response stored for it meanwhile, the next fetch of the same request is
    served that response from the cache, without asking the network, even
    when the network would reject. *)
Theorem second_fetch_served_from_cache
    (network network' : Request -> FetchOutcome)
    (meanwhile meanwhile' : CacheStorage -> CacheStorage)
    (request : Request) (w : World) (networkResponse : Response) :
  method request = "GET"%string ->
  caches_match (caches w) request = None ->
  network request = Resolves (Some networkResponse) ->
  cacheable networkResponse ->
  caches_match (meanwhile (caches w)) request = None ->
  let (_, w1) := onFetch network meanwhile request w in
  onFetch network' meanwhile' request w1 = (Some networkResponse, w1).
Proof.
  intros Hget Hmiss Hnet Hc Hstill. unfold onFetch at 1. rewrite Hmiss, Hnet.
  apply cacheable_guard in Hc. rewrite Hc.
  unfold onFetch. cbn [caches].
  apply is_GET_true in Hget. unfold caches_match in *.
  unfold caches_open_put. rewrite Hget in *.
  rewrite (match_url_store _ _ _ _ Hstill). reflexivity.
Qed.

Lemma second_fetch_served_from_cache_witness :
  let (_, w1) := onFetch Samples.sampleNetwork Samples.undisturbed
                         (GET "https://cdn.tailwindcss.com")
                         Samples.installedWorld in
  onFetch (fun _ => Rejects TypeError) Samples.undisturbed
          (GET "https://cdn.tailwindcss.com") w1
  = (Some Samples.stylesheet, w1).
Proof.
  apply (second_fetch_served_from_cache Samples.sampleNetwork
           (fun _ => Rejects TypeError) Samples.undisturbed Samples.undisturbed
           (GET "https://cdn.tailwindcss.com")
           Samples.installedWorld Samples.stylesheet).
  - reflexivity.
  - vm_compute. reflexivity.
  - reflexivity.
  - right. reflexivity.
  - vm_compute. reflexivity.
Defined.

(** *** Activate *)

Lemma filter_filter {A} (f g : A -> bool) (l : list A) :
  List.filter f (List.filter g l) = List.filter (fun a => g a && f a) l.
Proof.
  induction l as [|a l IH]; simpl; [reflexivity|].
  destruct (g a); simpl; [destruct (f a)|]; rewrite IH; reflexivity.
Qed.

Lemma filter_true {A} (l : list A) : List.filter (fun _ => true) l = l.
Proof. induction l as [|a l IH]; simpl; [|rewrite IH]; reflexivity. Qed.

Lemma activate_fold names : forall w,
  storage (fold_left activate_step names w)
  = List.filter
      (fun entry => existsb (String.eqb (fst entry)) cacheWhitelist
                    || negb (existsb (String.eqb (fst entry)) names))
      (storage w).
Proof.
  induction names as [|n ns IH]; intros w; cbn [fold_left].
  - rewrite <- (filter_true (storage w)) at 1.
    apply filter_ext. intros a. cbn [existsb negb].
    rewrite orb_true_r. reflexivity.
  - rewrite IH. unfold activate_step.
    destruct (existsb (String.eqb n) cacheWhitelist) eqn:Kn; cbn [negb storage].
    + apply filter_ext. intros [m c]. cbn [fst existsb].
      destruct (String.eqb m n) eqn:E; [|reflexivity].
      apply String.eqb_eq in E. subst m. rewrite Kn. reflexivity.
    + unfold caches_delete. rewrite filter_filter.
      apply filter_ext. intros [m c]. cbn [fst existsb].
      destruct (String.eqb m n) eqn:E; cbn [negb andb orb]; [|reflexivity].
      apply String.eqb_eq in E. subst m. rewrite Kn. reflexivity.
Qed.

Lemma onActivate_storage w :
  storage (onActivate w)
  = List.filter (fun entry => String.eqb (fst entry) CACHE_NAME) (storage w).
Proof.
  unfold onActivate. cbv zeta.
  rewrite activate_fold. apply filter_ext_in. intros [m c] Hin. cbn [fst].
  assert (E : existsb (String.eqb m) (map fst (storage w)) = true).
  { apply existsb_exists. exists m. split; [|apply String.eqb_refl].
    apply in_map_iff. exists (m, c). split; [reflexivity|exact Hin]. }
  rewrite E. unfold cacheWhitelist. cbn [existsb negb].
  rewrite !orb_false_r. reflexivity.
Qed.

Lemma cache_named_filter cs name :
  cache_named (List.filter (fun entry => String.eqb (fst entry) CACHE_NAME) cs)
              name
  = if String.eqb name CACHE_NAME then cache_named cs CACHE_NAME else None.
Proof.
  induction cs as [|[n c] rest IH]; cbn [List.filter cache_named fst].
  - destruct (String.eqb name CACHE_NAME); reflexivity.
  - destruct (String.eqb n CACHE_NAME) eqn:En; cbn [cache_named].
    + apply String.eqb_eq in En. rewrite En.
      rewrite (String.eqb_sym CACHE_NAME name).
      destruct (String.eqb name CACHE_NAME) eqn:Em; [reflexivity|exact IH].
    + exact IH.
Qed.

(** X12. Activation keeps exactly the caches named [CACHE_NAME], in their
    order and with their content, removes every cache of another name, and
    activating again changes nothing. *)
Theorem activate_keeps_current_cache_only (w : Worker) :
  storage (onActivate w)
  = List.filter (fun entry => String.eqb (fst entry) CACHE_NAME) (storage w)
  /\ cache_named (storage (onActivate w)) CACHE_NAME
     = cache_named (storage w) CACHE_NAME
  /\ (forall name, name <> CACHE_NAME ->
      cache_named (storage (onActivate w)) name = None)
  /\ onActivate (onActivate w) = onActivate w.
Proof.
  pose proof (onActivate_storage w) as Hs.
  split; [exact Hs|]. split; [|split].
  - rewrite Hs, cache_named_filter, String.eqb_refl. reflexivity.
  - intros name Hne. rewrite Hs, cache_named_filter.
    destruct (String.eqb name CACHE_NAME) eqn:E; [|reflexivity].
    apply String.eqb_eq in E. contradiction.
  - unfold onActivate at 1. cbv zeta.
    assert (Hall : forall names w0,
               Forall (fun n => n = CACHE_NAME) names ->
               fold_left activate_step names w0 = w0).
    { induction names as [|n ns IH]; intros w0 Hn; [reflexivity|].
      apply Forall_cons in Hn. destruct Hn as [-> Hns]. cbn [fold_left].
      unfold activate_step at 2. unfold cacheWhitelist. cbn [existsb].
      rewrite String.eqb_refl. cbn [orb negb]. apply IH, Hns. }
    apply Hall. rewrite Hs. apply List.Forall_forall. intros n Hin.
    apply in_map_iff in Hin. destruct Hin as ([m c] & <- & Hin).
    apply filter_In in Hin. destruct Hin as [_ E]. cbn [fst] in *.
    apply String.eqb_eq, E.
Qed.

Lemma activate_keeps_current_cache_only_witness :
  let w := mkWorker [("aqua-sentinel-cache-v0"%string, ∅);
                     (CACHE_NAME, {[ "/index.html"%string := Samples.indexPage ]})]
                    [] in
  cache_named (storage (onActivate w)) "aqua-sentinel-cache-v0" = None.
Proof.
  cbv zeta.
  apply (proj1 (proj2 (proj2 (activate_keeps_current_cache_only _)))).
  unfold CACHE_NAME. discriminate.
Defined.

(** *** Install *)

Lemma cache_named_open cs name :
  exists cache, cache_named (caches_open cs name) name = Some cache.
Proof.
  unfold caches_open. destruct (cache_named cs name) as [c|] eqn:E.
  - exists c. exact E.
  - exists ∅. induction cs as [|[n c] rest IH]; simpl.
    + rewrite String.eqb_refl. reflexivity.
    + simpl in E. destruct (String.eqb n name); [discriminate|]. apply IH, E.
Qed.

Lemma cache_named_store_other cs name url other response cache :
  cache_named cs name = Some cache -> cache !! url = Some response ->
  other <> url ->
  forall response',
  exists cache',
    cache_named (cache_store cs name other response') name = Some cache'
    /\ cache' !! url = Some response.
Proof.
  intros Hn Hget Hne response'.
  induction cs as [|[n c] rest IH]; simpl in *; [discriminate|].
  destruct (String.eqb n name) eqn:E; simpl; rewrite E.
  - injection Hn as <-. eexists. split; [reflexivity|].
    rewrite lookup_insert_ne by exact Hne. exact Hget.
  - apply IH, Hn.
Qed.

Section InstallFold.
Variable outcome : string -> completion Response.

Lemma install_log_grows urls : forall w entry,
  In entry (log w) ->
  In entry (log (fold_left (fun w u => cache_add outcome u w) urls w)).
Proof.
  induction urls as [|u us IH]; intros w entry Hin; [exact Hin|].
  cbn [fold_left]. apply IH. unfold cache_add.
  destruct (outcome u); cbn [log]; [exact Hin|].
  apply in_or_app. left. exact Hin.
Qed.

Lemma install_keeps_entry url response urls : forall w,
  outcome url = Normal response ->
  (exists cache, cache_named (storage w) CACHE_NAME = Some cache
                 /\ cache !! url = Some response) ->
  exists cache,
    cache_named (storage (fold_left (fun w u => cache_add outcome u w) urls w))
                CACHE_NAME = Some cache
    /\ cache !! url = Some response.
Proof.
  induction urls as [|u us IH]; intros w Hout Hw; [exact Hw|].
  cbn [fold_left]. apply IH; [exact Hout|].
  unfold cache_add. destruct (outcome u) as [r'|err] eqn:Eu; cbn [storage];
    [|exact Hw].
  destruct (String.eqb u url) eqn:E.
  - apply String.eqb_eq in E. subst u. rewrite Hout in Eu. injection Eu as <-.
    rewrite caches_open_put_GET. apply cache_named_store.
  - apply String.eqb_neq in E. destruct Hw as (cache & Hn & Hget).
    rewrite caches_open_put_GET. eapply cache_named_store_other; eassumption.
Qed.

Lemma install_stores url response urls : forall w,
  In url urls -> outcome url = Normal response ->
  exists cache,
    cache_named (storage (fold_left (fun w u => cache_add outcome u w) urls w))
                CACHE_NAME = Some cache
    /\ cache !! url = Some response.
Proof.
  induction urls as [|u us IH]; intros w Hin Hout; [contradiction|].
  cbn [fold_left]. destruct (String.eqb u url) eqn:E.
  - apply String.eqb_eq in E. subst u.
    apply install_keeps_entry; [exact Hout|].
    unfold cache_add. rewrite Hout. cbn [storage].
    rewrite caches_open_put_GET. apply cache_named_store.
  - apply String.eqb_neq in E. destruct Hin as [->|Hin]; [congruence|].
    apply IH; assumption.
Qed.

Lemma install_warns url err urls : forall w,
  In url urls -> outcome url = Throw err ->
  In (Warn ("Failed to cache " +:+ url +:+ ":") err)
     (log (fold_left (fun w u => cache_add outcome u w) urls w)).
Proof.
  induction urls as [|u us IH]; intros w Hin Hout; [contradiction|].
  cbn [fold_left]. destruct Hin as [->|Hin]; [|apply IH; assumption].
  apply install_log_grows. unfold cache_add. rewrite Hout. cbn [log].
  apply in_or_app. right. left. reflexivity.
Qed.

Lemma install_keeps_match url response urls : forall w,
  outcome url = Normal response ->
  match_url (storage w) url = Some response ->
  match_url (storage (fold_left (fun w u => cache_add outcome u w) urls w))
            url = Some response.
Proof.
  induction urls as [|u us IH]; intros w Hout Hw; [exact Hw|].
  cbn [fold_left]. apply IH; [exact Hout|].
  unfold cache_add. destruct (outcome u) as [r'|err] eqn:Eu; cbn [storage];
    [|exact Hw].
  destruct (String.eqb u url) eqn:E.
  - apply String.eqb_eq in E. subst u. rewrite Hout in Eu. injection Eu as <-.
    rewrite caches_open_put_GET. apply match_url_store_same, Hw.
  - apply String.eqb_neq in E. rewrite caches_open_put_GET, match_url_store_ne by exact E.
    exact Hw.
Qed.

Lemma install_matches url response urls : forall w,
  In url urls -> outcome url = Normal response ->
  match_url (storage w) url = None ->
  match_url (storage (fold_left (fun w u => cache_add outcome u w) urls w))
            url = Some response.
Proof.
  induction urls as [|u us IH]; intros w Hin Hout Hw; [contradiction|].
  cbn [fold_left]. destruct (String.eqb u url) eqn:E.
  - apply String.eqb_eq in E. subst u.
    apply install_keeps_match; [exact Hout|].
    unfold cache_add. rewrite Hout. cbn [storage].
    rewrite caches_open_put_GET. apply match_url_store, Hw.
  - apply String.eqb_neq in E. destruct Hin as [->|Hin]; [congruence|].
    apply IH; [exact Hin | exact Hout |].
    unfold cache_add. destruct (outcome u); cbn [storage]; [|exact Hw].
    rewrite caches_open_put_GET, match_url_store_ne by exact E. exact Hw.
Qed.

End InstallFold.

(** X13. Installation settles for every URL of the list: a URL whose
    [cache.add] succeeds is stored in the cache [CACHE_NAME] with the
    response it fetched, and a URL whose [cache.add] fails is reported by a
    warning, without stopping the others. *)
Theorem install_caches_or_warns
    (cache_add_outcome : string -> completion Response)
    (w : Worker) (url : string) :
  In url URLS_TO_CACHE ->
  (forall response, cache_add_outcome url = Normal response ->
     exists cache,
       cache_named (storage (onInstall cache_add_outcome w)) CACHE_NAME
       = Some cache
       /\ cache !! url = Some response)
  /\ (forall err, cache_add_outcome url = Throw err ->
      In (Warn ("Failed to cache " +:+ url +:+ ":") err)
         (log (onInstall cache_add_outcome w))).
Proof.
  intros Hin. unfold onInstall. cbv zeta. split.
  - intros response Hout. apply install_stores; assumption.
  - intros err Hout. apply install_warns; assumption.
Qed.

Lemma install_caches_or_warns_witness :
  let outcome := fun url : string =>
    if String.eqb url "/index.html" then Normal Samples.indexPage
    else Throw TypeError in
  (exists cache,
     cache_named (storage (onInstall outcome (mkWorker [] []))) CACHE_NAME
     = Some cache
     /\ cache !! "/index.html"%string = Some Samples.indexPage)
  /\ In (Warn "Failed to cache /App.tsx:" TypeError)
        (log (onInstall outcome (mkWorker [] []))).
Proof.
  cbv zeta. split.
  - refine (proj1 (install_caches_or_warns _ (mkWorker [] []) "/index.html" _)
                  Samples.indexPage _).
    + vm_compute. tauto.
    + reflexivity.
  - refine (proj2 (install_caches_or_warns _ (mkWorker [] []) "/App.tsx" _)
                  TypeError _).
    + vm_compute. tauto.
    + reflexivity.
Defined.

(** X14. After installation, an asset of the list whose [cache.add]
    succeeded and that no older cache held is served from the cache by the
    fetch listener, without asking the network. *)
Theorem installed_asset_served_without_network
    (cache_add_outcome : string -> completion Response)
    (network : Request -> FetchOutcome)
    (meanwhile : CacheStorage -> CacheStorage)
    (w : Worker) (url : string) (response : Response) :
  In url URLS_TO_CACHE ->
  cache_add_outcome url = Normal response ->
  caches_match (storage w) (GET url) = None ->
  onFetch network meanwhile (GET url)
          (world_of (onInstall cache_add_outcome w))
  = (Some response, world_of (onInstall cache_add_outcome w)).
Proof.
  intros Hin Hout Hmiss. unfold onFetch, world_of. cbn [caches].
  rewrite caches_match_GET in *.
  unfold onInstall. cbv zeta.
  rewrite (install_matches cache_add_outcome url response URLS_TO_CACHE _
             Hin Hout); [reflexivity|].
  cbn [storage]. rewrite match_url_open. exact Hmiss.
Qed.

Lemma installed_asset_served_without_network_witness :
  let outcome := fun url : string =>
    if String.eqb url "/index.html" then Normal Samples.indexPage
    else Throw TypeError in
  onFetch (fun _ => Rejects TypeError) Samples.undisturbed
          (GET "/index.html")
          (world_of (onInstall outcome (mkWorker [] [])))
  = (Some Samples.indexPage, world_of (onInstall outcome (mkWorker [] []))).
Proof.
  cbv zeta. apply installed_asset_served_without_network.
  - vm_compute. tauto.
  - reflexivity.
  - reflexivity.
Defined.
End LifecycleFacts.

(** ** The alert handlers of the tide panel *)

Section TidesPanelFacts.
Import JS Builtins Tides TidesPanel.

(** X15. Changing the alert of one city leaves the configuration and the
    triggered flag of every other city as they were; for the city itself
    the flag becomes height >= level when the new alert is enabled and
    false when it is not. *)
Theorem alert_change_is_local (name : string) (newAlert : TideAlert)
    (st : TidesState) (data : TideData) :
  (city data <> name ->
   isAlertTriggered (alerts (handleAlertChange name newAlert st)) data
   = isAlertTriggered (alerts st) data)
  /\ (city data = name ->
      isAlertTriggered (alerts (handleAlertChange name newAlert st)) data
      = if enabled newAlert then Some (height data >= level newAlert)%js
        else Some false)
  /\ (forall other, other <> name ->
      alerts (handleAlertChange name newAlert st) !! other
      = alerts st !! other).
Proof.
  unfold handleAlertChange, setAlerts, isAlertTriggered. cbn [alerts].
  split; [|split].
  - intros Hne. rewrite lookup_insert_ne by congruence. reflexivity.
  - intros ->. rewrite lookup_insert_eq. reflexivity.
  - intros other Hne. rewrite lookup_insert_ne by congruence. reflexivity.
Qed.

Lemma alert_change_is_local_witness :
  isAlertTriggered
    (alerts (handleAlertChange "Medan" (mkTideAlert true (Num 0.5))
               (mkTidesState Samples.jakartaMuted [])))
    Samples.jakartaTide
  = isAlertTriggered Samples.jakartaMuted Samples.jakartaTide.
Proof.
  apply (proj1 (alert_change_is_local "Medan" (mkTideAlert true (Num 0.5))
                  (mkTidesState Samples.jakartaMuted []) Samples.jakartaTide)).
  discriminate.
Defined.

Lemma or0_not_NaN (parsed : number) : (parsed || Num 0)%js <> NaN.
Proof.
  unfold or. destruct parsed as [|q]; cbn [truthy]; [discriminate|].
  destruct (negb (Qeq_bool q 0)); discriminate.
Qed.

(** X16. On a card, checking the box triggers the alert exactly when the
    height reaches the level of the card (2.0 when none was configured),
    unchecking it clears the flag, either way the level is kept; a level
    change keeps the enabled state and never stores NaN. *)
Theorem card_handlers (name : string) (st : TidesState) (data : TideData)
    (checked : bool) (parsed : number) :
  city data = name ->
  isAlertTriggered (alerts (cardEnabledChange name true st)) data
  = Some (height data >= alertLevel (alerts st !! name))%js
  /\ isAlertTriggered (alerts (cardEnabledChange name false st)) data
     = Some false
  /\ alertLevel (alerts (cardEnabledChange name checked st) !! name)
     = alertLevel (alerts st !! name)
  /\ exists cfg,
       alerts (cardLevelChange name parsed st) !! name = Some cfg
       /\ level cfg <> NaN
       /\ enabled cfg = isAlertEnabled (alerts st !! name).
Proof.
  intros Hcity.
  unfold cardEnabledChange, cardLevelChange, handleAlertChange, setAlerts,
    isAlertTriggered, handleEnabledChange, handleLevelChange.
  cbn [alerts]. rewrite Hcity, !lookup_insert_eq. cbn [enabled level alertLevel].
  repeat split. eexists. split; [reflexivity|]. cbn [level enabled].
  split; [apply or0_not_NaN | reflexivity].
Qed.

Lemma card_handlers_witness :
  isAlertTriggered
    (alerts (cardEnabledChange "Jakarta" true initialState))
    Samples.jakartaTide
  = Some (height Samples.jakartaTide >= Num 2.0)%js.
Proof.
  apply (proj1 (card_handlers "Jakarta" initialState Samples.jakartaTide
                  true NaN eq_refl)).
Defined.

(** X17. When [JSON.stringify] gives a text that is not empty and that
    [JSON.parse] reads back, the alerts written by the persisting effect
    are the ones the loading effect restores, under the same storage
    key. *)
Theorem alerts_survive_reload
    (JSON_stringify : gmap string TideAlert -> string)
    (JSON_parse : string -> completion (gmap string TideAlert))
    (st st0 : TidesState) (localStorage : gmap string string) :
  JSON_parse (JSON_stringify (alerts st)) = Normal (alerts st) ->
  JSON_stringify (alerts st) <> ""%string ->
  loadAlertsEffect JSON_parse
    (persistAlertsEffect JSON_stringify st localStorage) st0
  = Normal (mkTidesState (alerts st) (console st0)).
Proof.
  intros Hround Hne.
  unfold loadAlertsEffect, loadAlerts_try, persistAlertsEffect.
  rewrite lookup_insert_eq.
  destruct (JSON_stringify (alerts st)) as [|c text] eqn:E; [congruence|].
  cbn [truthy_string]. rewrite Hround. reflexivity.
Qed.

Lemma alerts_survive_reload_witness :
  loadAlertsEffect Samples.parse_known
    (persistAlertsEffect Samples.stringify_known
       (mkTidesState Samples.jakartaAlert [])
       {[ "theme"%string := "dark"%string ]})
    initialState
  = Normal (mkTidesState Samples.jakartaAlert []).
Proof.
  apply (alerts_survive_reload Samples.stringify_known Samples.parse_known
           (mkTidesState Samples.jakartaAlert []) initialState).
  - vm_compute. reflexivity.
  - vm_compute. discriminate.
Defined.

(** The loading effect is what restores them: the state it starts from has
    no alert. *)
Example reload_changes_the_alerts :
  alerts initialState !! "Jakarta"%string = None
  /\ (forall st',
        loadAlertsEffect Samples.parse_known
          (persistAlertsEffect Samples.stringify_known
             (mkTidesState Samples.jakartaAlert []) ∅)
          initialState
        = Normal st' ->
        alerts st' !! "Jakarta"%string = Some (mkTideAlert true (Num 1.0))).
Proof.
  split; [reflexivity|]. intros st' H. vm_compute in H.
  injection H as <-. vm_compute. reflexivity.
Qed.

End TidesPanelFacts.

(** ** The tide chart *)

Section ChartFacts.
Import JS Builtins TideChart.
Local Open Scope Q_scope.

Lemma fold_Math_max qs : forall q0,
  fold_left Math_max (map Num qs) (Num q0) = Num (fold_left Qmax qs q0).
Proof. induction qs as [|q qs IH]; intros q0; [reflexivity|]. apply IH. Qed.

Lemma fold_Math_min qs : forall q0,
  fold_left Math_min (map Num qs) (Num q0) = Num (fold_left Qmin qs q0).
Proof. induction qs as [|q qs IH]; intros q0; [reflexivity|]. apply IH. Qed.

Lemma fold_Qmax_ge qs : forall q0,
  q0 <= fold_left Qmax qs q0
  /\ forall q, In q qs -> q <= fold_left Qmax qs q0.
Proof.
  induction qs as [|a qs IH]; intros q0; cbn [fold_left].
  - split; [apply Qle_refl | contradiction].
  - destruct (IH (Qmax q0 a)) as [H0 Hin]. split.
    + eapply Qle_trans; [apply Q.le_max_l | exact H0].
    + intros q [<-|Hq]; [|apply Hin, Hq].
      eapply Qle_trans; [apply Q.le_max_r | exact H0].
Qed.

Lemma fold_Qmin_le qs : forall q0,
  fold_left Qmin qs q0 <= q0
  /\ forall q, In q qs -> fold_left Qmin qs q0 <= q.
Proof.
  induction qs as [|a qs IH]; intros q0; cbn [fold_left].
  - split; [apply Qle_refl | contradiction].
  - destruct (IH (Qmin q0 a)) as [H0 Hin]. split.
    + eapply Qle_trans; [exact H0 | apply Q.le_min_l].
    + intros q [<-|Hq]; [|apply Hin, Hq].
      eapply Qle_trans; [exact H0 | apply Q.le_min_r].
Qed.

Lemma getY_in_box m M v :
  m <= v -> v <= M ->
  let valRange :=
    (if (Num M - Num m > Num 0)%js then (Num M - Num m)%js else Num 1) in
  exists b, getY (Num m) valRange (Num v) = Num b /\ 10 <= b /\ b <= 90.
Proof.
  intros Hm HM. cbv zeta. unfold getY, height, padding, chartHeight.
  cbn [sub lift2 gt mul].
  destruct (Qle_bool (M - m) 0) eqn:E; cbn [negb].
  - apply Qle_bool_iff in E. cbn [div sub lift2 mul].
    change (Qeq_bool 1 0) with false. cbv iota. cbn [sub lift2 mul].
    eexists. split; [reflexivity|].
    assert (Ev : (v - m) / 1 == v - m) by field.
    rewrite Ev. split; lra.
  - assert (Hpos : 0 < M - m).
    { apply Qnot_le_lt. intros H. apply Qle_bool_iff in H. congruence. }
    cbn [div sub lift2 mul].
    assert (Ez : Qeq_bool (M - m) 0 = false).
    { destruct (Qeq_bool (M - m) 0) eqn:Z; [|reflexivity].
      apply Qeq_bool_iff in Z. lra. }
    rewrite Ez. cbn [sub lift2 mul].
    eexists. split; [reflexivity|].
    assert (T0 : 0 <= (v - m) / (M - m))
      by (apply Qle_shift_div_l; [exact Hpos | lra]).
    assert (T1 : (v - m) / (M - m) <= 1)
      by (apply Qle_shift_div_r; [exact Hpos | lra]).
    generalize dependent ((v - m) / (M - m)). intros t T0 T1. split; lra.
Qed.

Lemma getX_in_box (len i : nat) :
  (2 <= len)%nat -> (i < len)%nat ->
  exists a, getX len i = Num a /\ 10 <= a /\ a <= 290.
Proof.
  intros Hlen Hi. unfold getX, padding, chartWidth, width, of_nat, of_Z.
  cbn [sub lift2 div add mul].
  set (d := inject_Z (Z.of_nat len) - 1).
  assert (Hd : 0 < d).
  { unfold d. assert (2 <= inject_Z (Z.of_nat len))
      by (unfold Qle; simpl; lia). lra. }
  assert (Ez : Qeq_bool d 0 = false).
  { destruct (Qeq_bool d 0) eqn:Z; [|reflexivity].
    apply Qeq_bool_iff in Z. lra. }
  rewrite Ez. cbn [add mul lift2].
  eexists. split; [reflexivity|].
  assert (Hi0 : 0 <= inject_Z (Z.of_nat i)) by (unfold Qle; simpl; lia).
  assert (Hi1 : inject_Z (Z.of_nat i) <= d).
  { unfold d. assert (inject_Z (Z.of_nat i) + 1 <= inject_Z (Z.of_nat len)).
    { rewrite <- inject_Z_succ. unfold Qle; simpl; lia. }
    lra. }
  assert (T0 : 0 <= inject_Z (Z.of_nat i) / d)
    by (apply Qle_shift_div_l; [exact Hd | lra]).
  assert (T1 : inject_Z (Z.of_nat i) / d <= 1)
    by (apply Qle_shift_div_r; [exact Hd | lra]).
  generalize dependent (inject_Z (Z.of_nat i) / d). intros t T0 T1. split; lra.
Qed.

(** X18. For at least two numeric samples, the chart has one point per
    sample, each with x within [10, 290] and y within [10, 90]; for a single
    sample the x coordinate is NaN (0 / 0); for no sample there is no
    chart. *)
Theorem chart_points_in_box (q0 : Q) (qs : list Q) :
  (qs <> [] ->
   exists pts,
     points (map Num (q0 :: qs)) = Some pts
     /\ length pts = S (length qs)
     /\ Forall (fun pt => exists a b, pt = (Num a, Num b)
                                     /\ 10 <= a /\ a <= 290
                                     /\ 10 <= b /\ b <= 90) pts)
  /\ (exists b, points [Num q0] = Some [(NaN, Num b)] /\ b == 90)
  /\ points [] = None.
Proof.
  split; [|split; [|reflexivity]].
  - intros Hqs. unfold points. cbn [map]. cbv zeta.
    rewrite fold_Math_max, fold_Math_min.
    set (M := fold_left Qmax qs q0). set (m := fold_left Qmin qs q0).
    eexists. split; [reflexivity|]. split.
    { rewrite length_imap. cbn [length]. rewrite length_map. reflexivity. }
    apply Forall_lookup. intros i pt Hpt.
    rewrite list_lookup_imap in Hpt.
    change (Num q0 :: map Num qs) with (Num <$> (q0 :: qs)) in Hpt.
    rewrite list_lookup_fmap in Hpt.
    destruct ((q0 :: qs) !! i) as [v|] eqn:Ev; [|discriminate].
    cbn [fmap option_fmap option_map] in Hpt. injection Hpt as <-.
    assert (Hin : In v (q0 :: qs)).
    { apply list_elem_of_In. eapply list_elem_of_lookup_2, Ev. }
    assert (Hi : (i < S (length qs))%nat).
    { apply lookup_lt_Some in Ev. exact Ev. }
    assert (Hv : m <= v /\ v <= M).
    { destruct (fold_Qmax_ge qs q0) as [A0 A]. destruct (fold_Qmin_le qs q0) as [B0 B].
      destruct Hin as [<-|Hin]; [split; assumption|].
      split; [apply B | apply A]; exact Hin. }
    destruct Hv as [Hv1 Hv2].
    destruct (getX_in_box (S (length qs)) i) as (a & Ea & Ha0 & Ha1);
      [destruct qs; [congruence|cbn [length]; lia] | exact Hi |].
    destruct (getY_in_box m M v Hv1 Hv2) as (b & Eb & Hb0 & Hb1).
    exists a, b. cbn [length] in *. rewrite length_map.
    rewrite Ea. cbv zeta in Eb.
    split; [f_equal; exact Eb | repeat split; assumption].
  - assert (E : Qle_bool (q0 - q0) 0 = true) by (apply Qle_bool_iff; lra).
    unfold points. cbn [fold_left]. cbv zeta. cbn [sub lift2 gt].
    rewrite E. cbn [negb imap length].
    exists (100 - 10 - (q0 - q0) / 1 * (100 - 10 * 2)).
    split; [reflexivity|]. field.
Qed.

Lemma chart_points_in_box_witness :
  exists pts,
    points (map Num [1; 2; 1.5]) = Some pts
    /\ length pts = 3%nat
    /\ Forall (fun pt => exists a b, pt = (Num a, Num b)
                                     /\ 10 <= a /\ a <= 290
                                     /\ 10 <= b /\ b <= 90) pts.
Proof.
  apply (proj1 (chart_points_in_box 1 [2; 1.5])). discriminate.
Defined.
End ChartFacts.

(** ** The news panel *)

Section NewsFacts.
Import News.

Lemma Set_from_fold (items : list string) : forall acc,
  NoDup acc ->
  let result :=
    fold_left (fun acc item => if bool_decide (item ∈ acc) then acc
                               else acc ++ [item]) items acc in
  NoDup result /\ forall x, x ∈ result <-> x ∈ acc \/ x ∈ items.
Proof.
  induction items as [|i items IH]; intros acc Hacc; cbn [fold_left].
  - split; [exact Hacc|]. intros x. rewrite elem_of_nil. tauto.
  - case_bool_decide as Hi.
    + destruct (IH acc Hacc) as [Hnd Hin]. split; [exact Hnd|].
      intros x. rewrite Hin, elem_of_cons. split; [tauto|].
      intros [H|[->|H]]; tauto.
    + assert (Hacc' : NoDup (acc ++ [i])).
      { apply NoDup_app. split; [exact Hacc|]. split.
        - intros x Hx Hx'. apply list_elem_of_singleton in Hx'. congruence.
        - apply NoDup_singleton. }
      destruct (IH (acc ++ [i]) Hacc') as [Hnd Hin]. split; [exact Hnd|].
      intros x. rewrite Hin, elem_of_app, list_elem_of_singleton, elem_of_cons.
      tauto.
Qed.

Lemma Set_from_spec (items : list string) :
  NoDup (Set_from items) /\ forall x, x ∈ Set_from items <-> x ∈ items.
Proof.
  destruct (Set_from_fold items [] (NoDup_nil_2)) as [Hnd Hin].
  split; [exact Hnd|]. intros x. unfold Set_from. rewrite Hin, elem_of_nil.
  tauto.
Qed.

(** X19. The options of the city filter are "All Cities" followed by the
    cities of the articles, each city once. *)
Theorem cities_options (articles : list NewsArticle) :
  exists rest,
    cities articles = "All Cities"%string :: rest
    /\ NoDup rest
    /\ forall c, c ∈ rest <-> exists a, a ∈ articles /\ city a = c.
Proof.
  unfold cities. destruct articles as [|a0 articles]; cbn [length Nat.eqb].
  - exists []. split; [reflexivity|]. split; [apply NoDup_nil_2|].
    intros c. rewrite elem_of_nil. split; [tauto|].
    intros (a & Ha & _). apply elem_of_nil in Ha. exact Ha.
  - eexists. split; [reflexivity|].
    destruct (Set_from_spec (map city (a0 :: articles))) as [Hnd Hin].
    split; [exact Hnd|]. intros c. rewrite Hin.
    change (map city (a0 :: articles)) with (city <$> (a0 :: articles)).
    rewrite list_elem_of_fmap. split; intros (a & H1 & H2); exists a; auto.
Qed.

Lemma filteredNews_In selectedCity articles a :
  In a (filteredNews selectedCity articles) <->
  In a articles /\ (selectedCity = "All Cities"%string \/ city a = selectedCity).
Proof.
  unfold filteredNews. rewrite filter_In. cbv zeta.
  rewrite orb_true_iff, !String.eqb_eq. reflexivity.
Qed.

(** X20. "All Cities" shows every article; otherwise exactly the articles
    of the selected city are shown; and every option of the filter shows at
    least one article when there are articles. *)
Theorem filtered_news (selectedCity : string) (articles : list NewsArticle) :
  filteredNews "All Cities" articles = articles
  /\ (forall a, a ∈ filteredNews selectedCity articles <->
                a ∈ articles
                /\ (selectedCity = "All Cities"%string
                    \/ city a = selectedCity))
  /\ (articles <> [] -> selectedCity ∈ cities articles ->
      filteredNews selectedCity articles <> []).
Proof.
  split; [|split].
  - unfold filteredNews. cbv zeta.
    induction articles as [|a l IH]; [reflexivity|].
    cbn [List.filter]. rewrite String.eqb_refl. cbn [orb]. f_equal. exact IH.
  - intros a. rewrite !list_elem_of_In. apply filteredNews_In.
  - intros Hne Hsel.
    assert (Hex : exists a, In a (filteredNews selectedCity articles)).
    { unfold cities in Hsel. destruct articles as [|a0 l]; [congruence|].
      cbn [length Nat.eqb] in Hsel. apply elem_of_cons in Hsel.
      destruct Hsel as [->|Hsel].
      - exists a0. apply filteredNews_In. split; [left; reflexivity|].
        left; reflexivity.
      - apply (proj1 (proj2 (Set_from_spec _) _)) in Hsel.
        change (map city (a0 :: l)) with (city <$> (a0 :: l)) in Hsel.
        apply list_elem_of_fmap in Hsel. destruct Hsel as (a & -> & Ha).
        exists a. apply filteredNews_In.
        split; [apply list_elem_of_In, Ha | right; reflexivity]. }
    destruct Hex as (a & Ha). intros E. rewrite E in Ha. exact Ha.
Qed.

Lemma filtered_news_witness :
  filteredNews "Medan" MoreSamples.someArticles <> [].
Proof.
  apply (proj2 (proj2 (filtered_news "Medan" MoreSamples.someArticles))).
  - discriminate.
  - vm_compute. apply list_elem_of_In. simpl. tauto.
Defined.

(** X21. Toggling an article twice gives back the same set of expanded
    articles; one toggle flips the membership of that article and of no
    other. *)
Theorem toggle_expand (articleId : Z) (ids : gset Z) :
  handleToggleExpand articleId (handleToggleExpand articleId ids) = ids
  /\ (articleId ∈ handleToggleExpand articleId ids <-> articleId ∉ ids)
  /\ (forall other, other <> articleId ->
      (other ∈ handleToggleExpand articleId ids <-> other ∈ ids)).
Proof.
  unfold handleToggleExpand. cbv zeta.
  destruct (decide (articleId ∈ ids)) as [Hin|Hnin].
  - rewrite (bool_decide_eq_true_2 _ Hin).
    assert (Hout : articleId ∉ ids ∖ {[articleId]})
      by (rewrite elem_of_difference, elem_of_singleton; tauto).
    rewrite (bool_decide_eq_false_2 _ Hout).
    split; [|split].
    + apply set_eq. intros x.
      rewrite elem_of_union, elem_of_difference, elem_of_singleton.
      destruct (decide (x = articleId)) as [->|Hx]; tauto.
    + tauto.
    + intros other Hne. rewrite elem_of_difference, elem_of_singleton. tauto.
  - rewrite (bool_decide_eq_false_2 _ Hnin).
    assert (Hadd : articleId ∈ ids ∪ {[articleId]})
      by (rewrite elem_of_union, elem_of_singleton; tauto).
    rewrite (bool_decide_eq_true_2 _ Hadd).
    split; [|split].
    + apply set_eq. intros x.
      rewrite elem_of_difference, elem_of_union, elem_of_singleton.
      destruct (decide (x = articleId)) as [->|Hx]; tauto.
    + tauto.
    + intros other Hne. rewrite elem_of_union, elem_of_singleton. tauto.
Qed.

Lemma toggle_expand_witness :
  2%Z ∈ handleToggleExpand 1 {[ 2%Z ]} <-> 2%Z ∈ ({[ 2%Z ]} : gset Z).
Proof.
  apply (proj2 (proj2 (toggle_expand 1 {[ 2%Z ]})) 2%Z). discriminate.
Defined.

(** *** The cleaned reply *)

Lemma append_empty_r (s : string) : (s +:+ "")%string = s.
Proof.
  induction s as [|c s IH]; [reflexivity|].
  change (String c (s +:+ "") = String c s). f_equal. exact IH.
Qed.

Lemma prefix_closing_fence c rest :
  starts_with_backtick rest = false ->
  String.prefix (String LF "```") (String c rest) = false.
Proof.
  intros H. cbn [String.prefix]. destruct (ascii_dec LF c); [|reflexivity].
  destruct rest as [|c2 r2]; [reflexivity|].
  cbn [starts_with_backtick] in H. cbn [String.prefix].
  destruct (ascii_dec _ c2) as [E|E]; [|reflexivity].
  subst c2. change (Ascii.eqb backtick backtick = false) in H.
  rewrite Ascii.eqb_refl in H. discriminate.
Qed.

Lemma strip_fences_plain (body tail : string) :
  no_backtick body = true -> starts_with_backtick tail = false ->
  strip_fences 0 (body +:+ tail) = (body +:+ strip_fences 0 tail)%string.
Proof.
  induction body as [|c body IH]; intros Hb Ht; [reflexivity|].
  cbn [no_backtick] in Hb. apply andb_true_iff in Hb. destruct Hb as [Hc Hb].
  apply negb_true_iff in Hc.
  assert (Hrest : starts_with_backtick (body +:+ tail) = false).
  { destruct body as [|c' body']; [exact Ht|].
    cbn [no_backtick] in Hb. apply andb_true_iff in Hb.
    destruct Hb as [Hc' _]. apply negb_true_iff in Hc'. exact Hc'. }
  change ((String c body +:+ tail)%string) with (String c (body +:+ tail)).
  cbn [strip_fences].
  assert (P : forall p rest', String.prefix (String backtick p)
                                            (String c rest') = false).
  { intros p rest'. cbn [String.prefix].
    destruct (ascii_dec backtick c) as [E|E]; [|reflexivity].
    subst c. rewrite Ascii.eqb_refl in Hc. discriminate. }
  change ("```json" +:+ String LF "")%string
    with (String backtick ("``json" +:+ String LF ""))%string.
  change "```json"%string with (String backtick "``json").
  change "```"%string with (String backtick "``") at 2.
  rewrite !P.
  rewrite (prefix_closing_fence c _ Hrest).
  rewrite (IH Hb Ht). reflexivity.
Qed.

Lemma prefix_app (p s : string) : String.prefix p (p +:+ s) = true.
Proof.
  induction p as [|a p IH].
  - destruct s; reflexivity.
  - change (String a p +:+ s)%string with (String a (p +:+ s)).
    cbn [String.prefix]. destruct (ascii_dec a a); [exact IH | congruence].
Qed.

Lemma strip_opening_fence (rest : string) :
  strip_fences 0 (("```json" +:+ String LF "") +:+ rest) = strip_fences 0 rest.
Proof.
  assert (Hp : String.prefix ("```json" +:+ String LF "")
                 (String backtick ("``json" +:+ String LF rest)) = true)
    by exact (prefix_app ("```json" +:+ String LF "") rest).
  change (("```json" +:+ String LF "") +:+ rest)%string
    with (String backtick ("``json" +:+ String LF rest)).
  cbn [strip_fences]. rewrite Hp. reflexivity.
Qed.

(** X22. A reply without backticks cleans to its trimmed text, whether or
    not it is wrapped in a json code fence. *)
Theorem fenced_reply_is_unwrapped (body : string) :
  no_backtick body = true ->
  cleanedText (fenced body) = trim body /\ cleanedText body = trim body.
Proof.
  intros Hb. unfold cleanedText. split.
  - f_equal. unfold fenced.
    change ("```json" +:+ String LF "" +:+ body +:+ String LF "```")%string
      with (("```json" +:+ String LF "") +:+ (body +:+ String LF "```"))%string.
    rewrite strip_opening_fence.
    rewrite (strip_fences_plain body (String LF "```") Hb eq_refl).
    change (strip_fences 0 (String LF "```")) with ""%string.
    apply append_empty_r.
  - f_equal. rewrite <- (append_empty_r body) at 1.
    rewrite (strip_fences_plain body "" Hb eq_refl).
    change (strip_fences 0 "") with ""%string. apply append_empty_r.
Qed.

Lemma fenced_reply_is_unwrapped_witness :
  cleanedText (fenced "[{}]") = "[{}]"%string.
Proof.
  apply (proj1 (fenced_reply_is_unwrapped "[{}]" eq_refl)).
Defined.
End NewsFacts.

(** ** The theme of the root shell *)

Section ThemeFacts.
Import App.

(** X23. A theme that is not the empty text is read back after being
    stored, whatever the system prefers; without a stored theme the system
    preference decides; the document carries the class dark exactly when
    the theme is dark; and toggling switches between light and dark and is
    its own inverse. *)
Theorem theme_persistence (st : AppState) (prefersDark : bool) :
  (theme st <> ""%string ->
   theme (loadThemeEffect prefersDark (applyThemeEffect st)) = theme st)
  /\ (localStorage st !! "theme"%string = None ->
      theme (loadThemeEffect prefersDark st)
      = if prefersDark then "dark"%string else "light"%string)
  /\ (darkClass (applyThemeEffect st) = true <-> theme st = "dark"%string)
  /\ (theme st = "light"%string \/ theme st = "dark"%string ->
      theme (handleThemeChange st) <> theme st
      /\ theme (handleThemeChange (handleThemeChange st)) = theme st).
Proof.
  split; [|split; [|split]].
  - intros Hne. unfold loadThemeEffect, applyThemeEffect.
    cbn [localStorage theme]. rewrite lookup_insert_eq.
    destruct (theme st) as [|c t]; [congruence|]. reflexivity.
  - intros Hnone. unfold loadThemeEffect. rewrite Hnone. reflexivity.
  - unfold applyThemeEffect. cbn [darkClass].
    destruct (String.eqb (theme st) "dark") eqn:E.
    + apply String.eqb_eq in E. tauto.
    + apply String.eqb_neq in E. split; [discriminate | contradiction].
  - intros [E|E]; unfold handleThemeChange; cbn [theme]; rewrite E;
      (split; [discriminate | reflexivity]).
Qed.

Lemma theme_persistence_witness :
  let st := mkAppState "dark" false ∅ in
  theme (loadThemeEffect false (applyThemeEffect st)) = "dark"%string
  /\ theme (handleThemeChange (handleThemeChange st)) = "dark"%string.
Proof.
  cbv zeta. split.
  - apply (proj1 (theme_persistence (mkAppState "dark" false ∅) false)).
    discriminate.
  - refine (proj2 (proj2 (proj2 (proj2 (theme_persistence
              (mkAppState "dark" false ∅) false))) _)).
    right. reflexivity.
Defined.

(** A stored text that is no theme is taken as it is. *)
Example unexpected_stored_theme :
  let st := mkAppState "light" false {[ "theme"%string := "blue"%string ]} in
  theme (loadThemeEffect true st) = "blue"%string
  /\ darkClass (applyThemeEffect (loadThemeEffect true st)) = false
  /\ theme (handleThemeChange (loadThemeEffect true st)) = "light"%string.
Proof. cbv zeta. repeat split. Qed.

End ThemeFacts.
